(** * Virtual scrolling engine of the agent session viewer

    A shallow embedding of the virtual-scroll part of
    [tauri-app/src/app.js]: the offset table ([calculateOffsets]), the
    visible window ([getVisibleRange]), the incremental renderer's
    measuring step ([renderVisibleMessages]), the minimap click handler
    and the message selection functions.

    Numbers.  Heights come from [offsetHeight], which the DOM defines as
    an integer, and the offset table only ever holds sums of heights and
    of the gap: both are modelled in [Z].  Scroll positions, viewport
    heights and pointer coordinates can be fractional and are modelled
    in [Q]; JavaScript's doubles are idealised as exact rationals.
    Indices are [Z] where the source lets them go negative ([hi] in the
    binary searches, the selection index [-1]). *)

From Stdlib Require Import ZArith QArith Qminmax Lia Lqa Ascii.
From stdpp Require Import gmap strings list fin_maps.

Local Open Scope Z_scope.

(** ** Constants *)

Definition ESTIMATED_HEIGHT : Z := 80.
Definition BUFFER_PX : Q := 400%Q.
Definition GAP : Z := 16.

(** ** Data model *)

(** A message as the backend delivers it.  [msg_id] is a string: it is
    the key of the height cache and the [id] attribute of the element
    rendered for the message. *)
Record Message := {
  msg_id : string;
  role : string;
  timestamp : string;
  content : string
}.

(** [{ start, end }]; [end] is a keyword of Rocq. *)
Record Range := { start : Z; end_ : Z }.

(** The module-level variables of the script that the virtual scroll
    reads or writes.  [heightRecalcTimeout] and [minimapClickTimeout]
    hold a timer handle or [null] in the source, which only tests them
    for truthiness, so they are booleans here.  [currentSessionData]
    keeps the messages of the session only. *)
Record State := {
  currentSessionData : option (list Message);
  sortNewestFirst : bool;
  showThinking : bool;
  selectedMessageIndex : Z;
  allMessages : list Message;
  messageHeights : gmap string Z;
  messageOffsets : list Z;
  totalHeight : Z;
  visibleRange : Range;
  heightRecalcTimeout : bool;
  lastMinimapHeight : Z;
  lastMeasuredCount : Z;
  minimapClickInProgress : bool;
  minimapClickTimeout : bool;
  minimapNeedsRender : bool
}.

(** The values of the declarations at the top of the script. *)
Definition initial_state : State := {|
  currentSessionData := None;
  sortNewestFirst := true;
  showThinking := false;
  selectedMessageIndex := -1;
  allMessages := [];
  messageHeights := ∅;
  messageOffsets := [];
  totalHeight := 0;
  visibleRange := {| start := 0; end_ := 20 |};
  heightRecalcTimeout := false;
  lastMinimapHeight := 0;
  lastMeasuredCount := 0;
  minimapClickInProgress := false;
  minimapClickTimeout := false;
  minimapNeedsRender := false
|}.

(** What the functions read from the page.  [offsetHeight i] is the
    height the layout gives to the element rendered for the message at
    index [i]; [messagesContainer] tells whether
    [document.querySelector('.messages')] finds an element; [minimap] is
    the [clientHeight] of the minimap element when there is one.
    [elementId] is the [id] the HTML parser gives an element whose
    markup is written as [id="${m.msg_id}"]: the message id goes into
    the markup unescaped, so the parser decodes the character references
    in it and ends the attribute at a double quote, and the [id] read
    back from the element can differ from the message id. *)
Record Dom := {
  scrollTop : Q;
  clientHeight : Q;
  messagesContainer : bool;
  minimap : option Q;
  offsetHeight : nat -> Z;
  elementId : string -> string
}.

(** Field updates. *)
Definition set_offsets (offs : list Z) (total : Z) (s : State) : State :=
  {| currentSessionData := currentSessionData s;
     sortNewestFirst := sortNewestFirst s;
     showThinking := showThinking s;
     selectedMessageIndex := selectedMessageIndex s;
     allMessages := allMessages s;
     messageHeights := messageHeights s;
     messageOffsets := offs;
     totalHeight := total;
     visibleRange := visibleRange s;
     heightRecalcTimeout := heightRecalcTimeout s;
     lastMinimapHeight := lastMinimapHeight s;
     lastMeasuredCount := lastMeasuredCount s;
     minimapClickInProgress := minimapClickInProgress s;
     minimapClickTimeout := minimapClickTimeout s;
     minimapNeedsRender := minimapNeedsRender s |}.

Definition set_messageHeights (h : gmap string Z) (s : State) : State :=
  {| currentSessionData := currentSessionData s;
     sortNewestFirst := sortNewestFirst s;
     showThinking := showThinking s;
     selectedMessageIndex := selectedMessageIndex s;
     allMessages := allMessages s;
     messageHeights := h;
     messageOffsets := messageOffsets s;
     totalHeight := totalHeight s;
     visibleRange := visibleRange s;
     heightRecalcTimeout := heightRecalcTimeout s;
     lastMinimapHeight := lastMinimapHeight s;
     lastMeasuredCount := lastMeasuredCount s;
     minimapClickInProgress := minimapClickInProgress s;
     minimapClickTimeout := minimapClickTimeout s;
     minimapNeedsRender := minimapNeedsRender s |}.

Definition set_visibleRange (r : Range) (s : State) : State :=
  {| currentSessionData := currentSessionData s;
     sortNewestFirst := sortNewestFirst s;
     showThinking := showThinking s;
     selectedMessageIndex := selectedMessageIndex s;
     allMessages := allMessages s;
     messageHeights := messageHeights s;
     messageOffsets := messageOffsets s;
     totalHeight := totalHeight s;
     visibleRange := r;
     heightRecalcTimeout := heightRecalcTimeout s;
     lastMinimapHeight := lastMinimapHeight s;
     lastMeasuredCount := lastMeasuredCount s;
     minimapClickInProgress := minimapClickInProgress s;
     minimapClickTimeout := minimapClickTimeout s;
     minimapNeedsRender := minimapNeedsRender s |}.

Definition set_selectedMessageIndex (i : Z) (s : State) : State :=
  {| currentSessionData := currentSessionData s;
     sortNewestFirst := sortNewestFirst s;
     showThinking := showThinking s;
     selectedMessageIndex := i;
     allMessages := allMessages s;
     messageHeights := messageHeights s;
     messageOffsets := messageOffsets s;
     totalHeight := totalHeight s;
     visibleRange := visibleRange s;
     heightRecalcTimeout := heightRecalcTimeout s;
     lastMinimapHeight := lastMinimapHeight s;
     lastMeasuredCount := lastMeasuredCount s;
     minimapClickInProgress := minimapClickInProgress s;
     minimapClickTimeout := minimapClickTimeout s;
     minimapNeedsRender := minimapNeedsRender s |}.

Definition set_heightRecalcTimeout (b : bool) (s : State) : State :=
  {| currentSessionData := currentSessionData s;
     sortNewestFirst := sortNewestFirst s;
     showThinking := showThinking s;
     selectedMessageIndex := selectedMessageIndex s;
     allMessages := allMessages s;
     messageHeights := messageHeights s;
     messageOffsets := messageOffsets s;
     totalHeight := totalHeight s;
     visibleRange := visibleRange s;
     heightRecalcTimeout := b;
     lastMinimapHeight := lastMinimapHeight s;
     lastMeasuredCount := lastMeasuredCount s;
     minimapClickInProgress := minimapClickInProgress s;
     minimapClickTimeout := minimapClickTimeout s;
     minimapNeedsRender := minimapNeedsRender s |}.

Definition set_allMessages (msgs : list Message) (s : State) : State :=
  {| currentSessionData := currentSessionData s;
     sortNewestFirst := sortNewestFirst s;
     showThinking := showThinking s;
     selectedMessageIndex := selectedMessageIndex s;
     allMessages := msgs;
     messageHeights := messageHeights s;
     messageOffsets := messageOffsets s;
     totalHeight := totalHeight s;
     visibleRange := visibleRange s;
     heightRecalcTimeout := heightRecalcTimeout s;
     lastMinimapHeight := lastMinimapHeight s;
     lastMeasuredCount := lastMeasuredCount s;
     minimapClickInProgress := minimapClickInProgress s;
     minimapClickTimeout := minimapClickTimeout s;
     minimapNeedsRender := minimapNeedsRender s |}.

(** The session data and the two display toggles. *)
Definition set_session (data : option (list Message)) (newest thinking : bool)
    (s : State) : State :=
  {| currentSessionData := data;
     sortNewestFirst := newest;
     showThinking := thinking;
     selectedMessageIndex := selectedMessageIndex s;
     allMessages := allMessages s;
     messageHeights := messageHeights s;
     messageOffsets := messageOffsets s;
     totalHeight := totalHeight s;
     visibleRange := visibleRange s;
     heightRecalcTimeout := heightRecalcTimeout s;
     lastMinimapHeight := lastMinimapHeight s;
     lastMeasuredCount := lastMeasuredCount s;
     minimapClickInProgress := minimapClickInProgress s;
     minimapClickTimeout := minimapClickTimeout s;
     minimapNeedsRender := minimapNeedsRender s |}.

(** The minimap bookkeeping, written together wherever it changes. *)
Definition set_minimap (lastH lastN : Z) (inProgress pending needs : bool)
    (s : State) : State :=
  {| currentSessionData := currentSessionData s;
     sortNewestFirst := sortNewestFirst s;
     showThinking := showThinking s;
     selectedMessageIndex := selectedMessageIndex s;
     allMessages := allMessages s;
     messageHeights := messageHeights s;
     messageOffsets := messageOffsets s;
     totalHeight := totalHeight s;
     visibleRange := visibleRange s;
     heightRecalcTimeout := heightRecalcTimeout s;
     lastMinimapHeight := lastH;
     lastMeasuredCount := lastN;
     minimapClickInProgress := inProgress;
     minimapClickTimeout := pending;
     minimapNeedsRender := needs |}.

(** ** Height lookup

    [messageHeights.get(id) || ESTIMATED_HEIGHT]: a missing entry is
    [undefined] and a stored [0] is falsy; both give the estimate. *)
Definition heightOf (heights : gmap string Z) (m : Message) : Z :=
  match heights !! msg_id m with
  | Some h => if h =? 0 then ESTIMATED_HEIGHT else h
  | None => ESTIMATED_HEIGHT
  end.

(** ** calculateOffsets *)

(** The [for] loop: [acc] is [messageOffsets] so far ([push] appends),
    [offset] the running offset; the result is the table and the final
    value of [offset]. *)
Fixpoint offsets_loop (heights : gmap string Z) (msgs : list Message)
    (offset : Z) (acc : list Z) : list Z * Z :=
  match msgs with
  | [] => (acc, offset)
  | m :: rest =>
      let height := heightOf heights m in
      offsets_loop heights rest (offset + (height + GAP)) (acc ++ [offset])
  end.

(** The function returns [totalHeight] on both paths; the value returned
    is the [totalHeight] field of the resulting state. *)
Definition calculateOffsets (s : State) : State :=
  match allMessages s with
  | [] => set_offsets [] 0 s
  | _ =>
      let '(offs, offset) := offsets_loop (messageHeights s) (allMessages s) 0 [] in
      set_offsets offs (Z.max 0 (offset - GAP)) s
  end.

(** Every cached height is strictly positive: the invariant of the
    height cache (see [cache_positive_reachable] below). *)
Definition cache_positive (heights : gmap string Z) : Prop :=
  forall id h, heights !! id = Some h -> 0 < h.

(** The offset table is the one [calculateOffsets] computes from the
    current sequence and cache. *)
Definition table_recomputed (s : State) : Prop :=
  messageOffsets s = messageOffsets (calculateOffsets s) /\
  totalHeight s = totalHeight (calculateOffsets s).

(** ** getVisibleRange *)

(** [a < b] on rationals, as a boolean. *)
Definition Qltb (a b : Q) : bool :=
  match (a ?= b)%Q with Lt => true | _ => false end.

(** Comparisons of a table entry with a rational bound.  Reading the
    table past its end gives [undefined], arithmetic on it gives [NaN],
    and every comparison with [NaN] is false: [None] stands for both. *)
Definition js_lt (x : option Z) (q : Q) : bool :=
  match x with Some z => Qltb (inject_Z z) q | None => false end.

Definition js_gt (x : option Z) (q : Q) : bool :=
  match x with Some z => Qltb q (inject_Z z) | None => false end.

(** [messageOffsets[mid] + (messageHeights.get(allMessages[mid].msg_id)
    || ESTIMATED_HEIGHT)].  Inside the loops [0 <= mid < length], so
    [allMessages[mid]] is always there. *)
Definition msgBottom (s : State) (mid : Z) : option Z :=
  o ← messageOffsets s !! Z.to_nat mid;
  m ← allMessages s !! Z.to_nat mid;
  Some (o + heightOf (messageHeights s) m).

(** The first [while (lo <= hi)] loop.  Each round removes [mid] from
    the interval [lo..hi], so [fuel] rounds are enough once [fuel] is at
    least the size of the interval ([search_start_fuel] below). *)
Fixpoint search_start (fuel : nat) (s : State) (viewStart : Q) (lo hi : Z)
    : Z * Z :=
  match fuel with
  | O => (lo, hi)
  | S fuel' =>
      if lo <=? hi then
        let mid := (lo + hi) / 2 in
        if js_lt (msgBottom s mid) viewStart
        then search_start fuel' s viewStart (mid + 1) hi
        else search_start fuel' s viewStart lo (mid - 1)
      else (lo, hi)
  end.

(** The second loop. *)
Fixpoint search_end (fuel : nat) (s : State) (viewEnd : Q) (lo hi : Z)
    : Z * Z :=
  match fuel with
  | O => (lo, hi)
  | S fuel' =>
      if lo <=? hi then
        let mid := (lo + hi) / 2 in
        if js_gt (messageOffsets s !! Z.to_nat mid) viewEnd
        then search_end fuel' s viewEnd lo (mid - 1)
        else search_end fuel' s viewEnd (mid + 1) hi
      else (lo, hi)
  end.

Definition getVisibleRange (s : State) (scrollTop containerHeight : Q) : Range :=
  match allMessages s with
  | [] => {| start := 0; end_ := 0 |}
  | _ =>
      let n := length (allMessages s) in
      let viewStart := Qmax 0 (scrollTop - BUFFER_PX) in
      let viewEnd := (scrollTop + containerHeight + BUFFER_PX)%Q in
      let '(lo, _) := search_start n s viewStart 0 (Z.of_nat n - 1) in
      let start := Z.max 0 (lo - 1) in
      let '(_, hi) := search_end n s viewEnd start (Z.of_nat n - 1) in
      {| start := start; end_ := Z.min (Z.of_nat n) (hi + 2) |}
  end.

(** ** Debounced recalculation *)

(** [renderMinimap]: the drawing is not modelled, only the recomputation
    of a table whose length does not match the sequence. *)
Definition renderMinimap (dom : Dom) (s : State) : State :=
  match minimap dom with
  | None => s
  | Some _ =>
      if bool_decide (allMessages s = []) then s
      else if bool_decide (length (messageOffsets s) = length (allMessages s))
      then s
      else calculateOffsets s
  end.

(** [scheduleHeightRecalc]: arms the timer unless one is pending. *)
Definition scheduleHeightRecalc (s : State) : State :=
  if heightRecalcTimeout s then s else set_heightRecalcTimeout true s.

(** The timer's callback, 100 ms later. *)
Definition heightRecalc_timeout (dom : Dom) (s : State) : State :=
  let s := calculateOffsets (set_heightRecalcTimeout false s) in
  let measuredCount := Z.of_nat (size (messageHeights s)) in
  let heightChanged :=
    Qltb (inject_Z (lastMinimapHeight s) * (5 # 100))
         (inject_Z (Z.abs (totalHeight s - lastMinimapHeight s))) in
  let manyNewMeasured := 10 <? measuredCount - lastMeasuredCount s in
  let shouldRenderMinimap := heightChanged || manyNewMeasured in
  if minimapClickInProgress s then
    if shouldRenderMinimap
    then set_minimap (lastMinimapHeight s) (lastMeasuredCount s)
           (minimapClickInProgress s) (minimapClickTimeout s) true s
    else s
  else if shouldRenderMinimap
  then renderMinimap dom
         (set_minimap (totalHeight s) measuredCount
            (minimapClickInProgress s) (minimapClickTimeout s)
            (minimapNeedsRender s) s)
  else s.

(** ** renderVisibleMessages *)

(** The elements the render writes to the page, as the measuring loop
    reads them: the [id] ([msg.id], parsed from the markup) and the
    [offsetHeight] of the element of each message of [start..end-1].
    One element stands for each message: an id whose text closes the
    tag and opens further [.message] elements is outside the model. *)
Definition rendered_elements (dom : Dom) (msgs : list Message) (start end_ : Z)
    : list (string * Z) :=
  omap (fun i => m ← msgs !! i;
                 Some (elementId dom (msg_id m), offsetHeight dom i))
       (seq (Z.to_nat start) (Z.to_nat (end_ - start))).

(** One round of the measuring [forEach]: the cache and the
    [heightsChanged] flag. *)
Definition measure_element (acc : gmap string Z * bool) (el : string * Z)
    : gmap string Z * bool :=
  let '(id, height) := el in
  if (0 <? height) && negb (bool_decide (acc.1 !! id = Some height))
  then (<[id := height]> acc.1, true)
  else acc.

Definition measure_rendered (els : list (string * Z)) (heights : gmap string Z)
    : gmap string Z * bool :=
  fold_left measure_element els (heights, false).

(** The clamped bounds of the range to render. *)
Definition render_start (s : State) : Z :=
  Z.max 0 (Z.min (start (visibleRange s)) (Z.of_nat (length (allMessages s)))).

Definition render_end (s : State) : Z :=
  Z.max (render_start s)
        (Z.min (end_ (visibleRange s)) (Z.of_nat (length (allMessages s)))).

(** The spacers and the markup go to the page only; the state changes
    through the measuring loop and the scheduling. *)
Definition renderVisibleMessages (dom : Dom) (s : State) : State :=
  if negb (messagesContainer dom) then s
  else
    let start := render_start s in
    let end_ := render_end s in
    if (end_ <=? start) || bool_decide (allMessages s = []) then s
    else
      let '(heights, heightsChanged) :=
        measure_rendered (rendered_elements dom (allMessages s) start end_)
                         (messageHeights s) in
      let s := set_messageHeights heights s in
      if heightsChanged then scheduleHeightRecalc s else s.

(** ** Scrolling *)

(** The animation-frame callback of [handleScroll]. *)
Definition handleScroll_frame (dom : Dom) (s : State) : State :=
  let newRange := getVisibleRange s (scrollTop dom) (clientHeight dom) in
  if negb (start newRange =? start (visibleRange s))
     || negb (end_ newRange =? end_ (visibleRange s))
  then renderVisibleMessages dom (set_visibleRange newRange s)
  else s.

(** [handleMinimapClick]: the new state and the argument of
    [content.scrollTo], if it is called.  [clientY] and [rectTop] are
    the pointer's and the minimap's vertical positions. *)
Definition handleMinimapClick (clientY rectTop : Q) (dom : Dom) (s : State)
    : State * option Q :=
  match minimap dom with
  | None => (s, None)
  | Some minimapClientHeight =>
      let y := (clientY - rectTop)%Q in
      let scale := (minimapClientHeight / inject_Z (Z.max (totalHeight s) 1))%Q in
      let scrollTop := (y / scale - clientHeight dom / 2)%Q in
      (set_minimap (lastMinimapHeight s) (lastMeasuredCount s) true
         (minimapClickTimeout s) (minimapNeedsRender s) s,
       Some (Qmax 0 scrollTop))
  end.

(** The animation-frame callback of the click. *)
Definition minimapClick_frame (dom : Dom) (s : State) : State :=
  let newRange := getVisibleRange s (scrollTop dom) (clientHeight dom) in
  let s := renderVisibleMessages dom (set_visibleRange newRange s) in
  set_minimap (lastMinimapHeight s) (lastMeasuredCount s)
    (minimapClickInProgress s) true (minimapNeedsRender s) s.

(** The settle timer of the click, 200 ms later. *)
Definition minimapClick_timeout (dom : Dom) (s : State) : State :=
  if minimapNeedsRender s
  then renderMinimap dom
         (set_minimap (totalHeight s) (Z.of_nat (size (messageHeights s)))
            false false false s)
  else set_minimap (lastMinimapHeight s) (lastMeasuredCount s)
         false false (minimapNeedsRender s) s.

(** ** Session rendering and the display toggles *)

(** [renderSession]: it writes the [.messages] container into the page
    before it renders, so the render finds it. *)
Definition renderSession (messages : list Message) (dom : Dom) (s : State)
    : State :=
  let msgs := if sortNewestFirst s then reverse messages else messages in
  let s := set_selectedMessageIndex (-1) (set_allMessages msgs s) in
  let s := set_offsets [] (totalHeight s) (set_messageHeights ∅ s) in
  let s := set_minimap 0 0 (minimapClickInProgress s) (minimapClickTimeout s)
             (minimapNeedsRender s) s in
  let s := calculateOffsets s in
  let h := if Qeq_bool (clientHeight dom) 0 then 800%Q else clientHeight dom in
  let s := set_visibleRange (getVisibleRange s 0 h) s in
  renderVisibleMessages
    {| scrollTop := scrollTop dom; clientHeight := clientHeight dom;
       messagesContainer := true; minimap := minimap dom;
       offsetHeight := offsetHeight dom; elementId := elementId dom |} s.

(** Its timer, 50 ms later. *)
Definition renderSession_timeout (dom : Dom) (s : State) : State :=
  renderMinimap dom (calculateOffsets s).

(** [loadSession] once the messages have arrived. *)
Definition loadSession (messages : list Message) (dom : Dom) (s : State)
    : State :=
  renderSession messages dom
    (set_session (Some messages) (sortNewestFirst s) (showThinking s) s).

Definition toggleSort (dom : Dom) (s : State) : State :=
  let s := set_session (currentSessionData s) (negb (sortNewestFirst s))
             (showThinking s) s in
  match currentSessionData s with
  | Some messages => renderSession messages dom s
  | None => s
  end.

Definition toggleThinking (s : State) : State :=
  set_messageHeights ∅
    (set_session (currentSessionData s) (sortNewestFirst s)
       (negb (showThinking s)) s).

(** One round of the re-measuring [forEach] of its timer. *)
Definition remeasure_element (heights : gmap string Z) (el : string * Z)
    : gmap string Z :=
  let '(id, height) := el in
  if 0 <? height then <[id := height]> heights else heights.

(** The timer of [toggleThinking], 50 ms later; [els] are the [id] and
    [offsetHeight] of the [.message] elements on the page. *)
Definition toggleThinking_timeout (els : list (string * Z)) (dom : Dom)
    (s : State) : State :=
  let s := set_messageHeights
             (fold_left remeasure_element els (messageHeights s)) s in
  renderMinimap dom (calculateOffsets s).

(** ** Selection *)

(** [selectMessage]: the new state and the argument of
    [content.scrollTo], if it is called.  The [direction] parameter is
    not used by the source. *)
Definition selectMessage (index : Z) (dom : Dom) (s : State)
    : State * option Q :=
  match allMessages s with
  | [] => (s, None)
  | _ =>
      let index := Z.max 0 (Z.min index (Z.of_nat (length (allMessages s)) - 1)) in
      let s' := set_selectedMessageIndex index s in
      let msgOffset := default 0 (messageOffsets s !! Z.to_nat index) in
      let msgHeight :=
        match allMessages s !! Z.to_nat index with
        | Some m => heightOf (messageHeights s) m
        | None => ESTIMATED_HEIGHT
        end in
      let isVisible :=
        Qle_bool (scrollTop dom) (inject_Z msgOffset)
        && Qle_bool (inject_Z (msgOffset + msgHeight))
                    (scrollTop dom + clientHeight dom) in
      (s', if isVisible then None
           else Some (inject_Z (Z.max 0 (msgOffset - 100))))
  end.

Definition navigateMessages (direction : Z) (dom : Dom) (s : State)
    : State * option Q :=
  match allMessages s with
  | [] => (s, None)
  | _ =>
      if selectedMessageIndex s =? -1
      then selectMessage
             (if 0 <? direction then 0
              else Z.of_nat (length (allMessages s)) - 1) dom s
      else selectMessage (selectedMessageIndex s + direction) dom s
  end.

(** ** The events of the page

    One step of the script: an event handler or a timer callback runs to
    completion. *)
Inductive step : State -> State -> Prop :=
  | step_loadSession messages dom s :
      step s (loadSession messages dom s)
  | step_renderSession_timeout dom s :
      step s (renderSession_timeout dom s)
  | step_toggleSort dom s :
      step s (toggleSort dom s)
  | step_toggleThinking s :
      step s (toggleThinking s)
  | step_toggleThinking_timeout els dom s :
      step s (toggleThinking_timeout els dom s)
  | step_heightRecalc_timeout dom s :
      heightRecalcTimeout s = true ->
      step s (heightRecalc_timeout dom s)
  | step_handleScroll_frame dom s :
      step s (handleScroll_frame dom s)
  | step_handleMinimapClick clientY rectTop dom s :
      step s (handleMinimapClick clientY rectTop dom s).1
  | step_minimapClick_frame dom s :
      step s (minimapClick_frame dom s)
  | step_minimapClick_timeout dom s :
      step s (minimapClick_timeout dom s)
  | step_selectMessage index dom s :
      step s (selectMessage index dom s).1
  | step_navigateMessages direction dom s :
      step s (navigateMessages direction dom s).1.

(** The states the script can be in. *)
Inductive reachable : State -> Prop :=
  | reachable_initial : reachable initial_state
  | reachable_step s s' : reachable s -> step s s' -> reachable s'.

(** ** Example states *)

Definition message (id : string) : Message :=
  {| msg_id := id; role := "user"; timestamp := "t"; content := "text" |}.

Definition three_messages : list Message :=
  [message "m1"; message "m2"; message "m3"].

(** Three messages, nothing measured yet. *)
Definition three_estimated : State :=
  calculateOffsets (set_allMessages three_messages initial_state).

(** [messageHeights.set(id, height)] followed by a recomputation. *)
Definition measured (id : string) (height : Z) (s : State) : State :=
  calculateOffsets (set_messageHeights (<[id := height]> (messageHeights s)) s).

Definition second_measured : State := measured "m2" 40 three_estimated.

Definition first_measured : State := measured "m1" 40 three_estimated.

(** A page 200 pixels high, scrolled to the top, that lays every message
    out 80 pixels high, with a minimap 600 pixels high.  The ids of the
    example messages have nothing the parser rewrites. *)
Definition example_dom : Dom :=
  {| scrollTop := 0; clientHeight := 200; messagesContainer := true;
     minimap := Some 600%Q; offsetHeight := fun _ => 80;
     elementId := fun id => id |}.

(** All three messages measured at 80 and rendered. *)
Definition three_rendered : State :=
  set_visibleRange {| start := 0; end_ := 3 |}
    (measured "m1" 80 (measured "m2" 80 (measured "m3" 80 three_estimated))).

(** A hundred messages, nothing measured: offsets [96 * i]. *)
Definition hundred_estimated : State :=
  calculateOffsets (set_allMessages (replicate 100 (message "m")) initial_state).

(** The three messages rendered once and the minimap clicked. *)
Definition three_clicked : State :=
  (handleMinimapClick 300 0 example_dom
     (renderVisibleMessages example_dom three_estimated)).1.

(** The page after the content has scrolled to [top]. *)
Definition scrolled_to (top : Q) (dom : Dom) : Dom :=
  {| scrollTop := top; clientHeight := clientHeight dom;
     messagesContainer := messagesContainer dom; minimap := minimap dom;
     offsetHeight := offsetHeight dom; elementId := elementId dom |}.

(** A hundred messages with the window of the scroll position 5000. *)
Definition hundred_scrolled : State :=
  set_visibleRange (getVisibleRange hundred_estimated 5000 800)
    hundred_estimated.

(** ** Vocabulary of the properties *)

(** The height of a message as the specification words it: the cached
    height if there is one, else the estimate. *)
Definition cached_or_estimate (heights : gmap string Z) (m : Message) : Z :=
  default ESTIMATED_HEIGHT (heights !! msg_id m).

(** [sum (height(i) + G)] over the sequence. *)
Definition padded_height (heights : gmap string Z) (msgs : list Message) : Z :=
  foldr (fun m acc => cached_or_estimate heights m + GAP + acc) 0 msgs.

(** The top and bottom edges of the pixel band of message [i]. *)
Definition top_edge (s : State) (i : nat) : Z :=
  default 0 (messageOffsets s !! i).

Definition bottom_edge (s : State) (i : nat) : Z :=
  top_edge s i
  + default ESTIMATED_HEIGHT
      (cached_or_estimate (messageHeights s) <$> allMessages s !! i).

(** [f] is the first, [l] the last index below [n] with property [P]. *)
Definition first_index (n : nat) (P : nat -> Prop) (f : nat) : Prop :=
  (f < n)%nat /\ P f /\ forall j, (j < f)%nat -> ~ P j.

Definition last_index (n : nat) (P : nat -> Prop) (l : nat) : Prop :=
  (l < n)%nat /\ P l /\ forall j, (l < j < n)%nat -> ~ P j.

(** The loop of both binary searches, over the test that sends the
    search to the right half. *)
Fixpoint bisect (fuel : nat) (right : Z -> bool) (lo hi : Z) : Z * Z :=
  match fuel with
  | O => (lo, hi)
  | S fuel' =>
      if lo <=? hi then
        let mid := (lo + hi) / 2 in
        if right mid then bisect fuel' right (mid + 1) hi
        else bisect fuel' right lo (mid - 1)
      else (lo, hi)
  end.

(** The pixel band of message [i] meets the viewport
    [[scrollTop, scrollTop + viewportHeight]]. *)
Definition band_in_viewport (s : State) (scrollTop viewportHeight : Q)
    (i : nat) : Prop :=
  (inject_Z (top_edge s i) <= scrollTop + viewportHeight)%Q
  /\ (scrollTop <= inject_Z (bottom_edge s i))%Q.

(** ** The spacers of the render

    [renderVisibleMessages] writes a spacer above and a spacer below the
    rendered messages; these are their heights, computed from the
    clamped range once the early returns are passed. *)
Definition topSpacer (s : State) : Z :=
  let start := render_start s in
  if 0 <? start
  then match messageOffsets s !! Z.to_nat start with
       | Some o => o
       | None => 0
       end
  else 0.

Definition bottomSpacer (s : State) : Z :=
  let end_ := render_end s in
  let bottomSpacer :=
    if (end_ <? Z.of_nat (length (allMessages s))) && (0 <? end_) then
      let lastRenderedIdx := end_ - 1 in
      let lastOffset := default 0 (messageOffsets s !! Z.to_nat lastRenderedIdx) in
      let lastHeight :=
        match allMessages s !! Z.to_nat lastRenderedIdx with
        | Some m => heightOf (messageHeights s) m
        | None => ESTIMATED_HEIGHT
        end in
      totalHeight s - lastOffset - lastHeight - GAP
    else 0 in
  Z.max 0 bottomSpacer.

(** ** The minimap's viewport indicator

    [updateMinimapViewport]: the [top] and [height] written to the
    indicator's style, if they are written.  [viewport] tells whether
    the indicator element is found; it is a child of the minimap, whose
    [clientHeight] is [minimapClientHeight]. *)
Definition updateMinimapViewport (viewport : bool) (minimapClientHeight : Q)
    (scrollTop containerHeight : Q) (s : State) : option (Q * Q) :=
  if negb viewport || (totalHeight s =? 0) then None
  else
    let scale := (minimapClientHeight / inject_Z (Z.max (totalHeight s) 1))%Q in
    let top := (scrollTop * scale)%Q in
    let height := (containerHeight * scale)%Q in
    Some (top, height).

(** ** [Array.prototype.findIndex] *)

Fixpoint findIndex_from {A} (p : A -> bool) (l : list A) (i : Z) : Z :=
  match l with
  | [] => -1
  | x :: rest => if p x then i else findIndex_from p rest (i + 1)
  end.

Definition findIndex {A} (p : A -> bool) (l : list A) : Z :=
  findIndex_from p l 0.

(** The timer of [loadSession] that jumps to a search result, 100 ms
    after the session is rendered; [scrollToMsg] is not empty. *)
Definition scrollToMsg_timeout (scrollToMsg : string) (dom : Dom) (s : State)
    : State * option Q :=
  let targetId := scrollToMsg in
  let msgIndex :=
    findIndex (fun m => bool_decide (msg_id m = targetId)) (allMessages s) in
  if 0 <=? msgIndex then selectMessage msgIndex dom s else (s, None).

(** ** The session list *)

(** A session summary; [project] can be [null]. *)
Record Session := {
  session_id : string;
  project : option string;
  first_message : option string;
  message_count : Z;
  started_at : string;
  agent : option string
}.

(** The variables of the sidebar: the filtered and the unfiltered
    sessions, the open session and the project filter. *)
Record Sidebar := {
  sessions : list Session;
  allSessions : list Session;
  currentSession : option Session;
  selectedProject : string
}.

(** What a handler of the sidebar does to the content pane. *)
Inductive SidebarAction :=
  | NoAction
  | LoadSession (id : string)
  | ShowNoSessions.

(** [navigateSessions]: the id passed to [loadSession], if it is
    called. *)
Definition navigateSessions (direction : Z) (sb : Sidebar) : option string :=
  match sessions sb with
  | [] => None
  | _ =>
      let n := Z.of_nat (length (sessions sb)) in
      let currentIndex :=
        match currentSession sb with
        | Some c =>
            findIndex (fun s => bool_decide (session_id s = session_id c))
                      (sessions sb)
        | None => -1
        end in
      let newIndex :=
        if currentIndex =? -1
        then (if 0 <? direction then 0 else n - 1)
        else Z.max 0 (Z.min (currentIndex + direction) (n - 1)) in
      if negb (newIndex =? currentIndex)
      then session_id <$> sessions sb !! Z.to_nat newIndex
      else None
  end.

(** [filterSessions]: the new sidebar and what happens to the content
    pane.  [ShowNoSessions] also sets [currentSessionData] to [null]. *)
Definition filterSessions (sb : Sidebar) : Sidebar * SidebarAction :=
  let sessions' :=
    if bool_decide (selectedProject sb = EmptyString)
    then allSessions sb
    else filter (fun s => project s = Some (selectedProject sb)) (allSessions sb) in
  let sb' := {| sessions := sessions'; allSessions := allSessions sb;
                currentSession := currentSession sb;
                selectedProject := selectedProject sb |} in
  match currentSession sb with
  | None => (sb', NoAction)
  | Some c =>
      if bool_decide (Exists (fun s => session_id s = session_id c) sessions')
      then (sb', NoAction)
      else match sessions' with
           | first :: _ => (sb', LoadSession (session_id first))
           | [] => ({| sessions := sessions'; allSessions := allSessions sb;
                       currentSession := None;
                       selectedProject := selectedProject sb |},
                    ShowNoSessions)
           end
  end.

(** [loadSessions] once the sessions and the projects have arrived. *)
Definition loadSessions (fetched : list Session) (projects : list string)
    (sb : Sidebar) : Sidebar * SidebarAction :=
  let selected :=
    if negb (bool_decide (selectedProject sb = EmptyString))
       && negb (bool_decide (selectedProject sb ∈ projects))
    then EmptyString else selectedProject sb in
  filterSessions {| sessions := sessions sb; allSessions := fetched;
                    currentSession := currentSession sb;
                    selectedProject := selected |}.

(** The synchronous start of [loadSession]: the session is looked up in
    the filtered list and becomes the current one; [None] when it is not
    there and the function returns at once. *)
Definition loadSession_start (id : string) (sb : Sidebar) : option Sidebar :=
  session ← head (filter (fun s => session_id s = id) (sessions sb));
  Some {| sessions := sessions sb; allSessions := allSessions sb;
          currentSession := Some session;
          selectedProject := selectedProject sb |}.

(** ** Escaping *)

(** [text.replace(/c/g, rep)] for a single character [c]. *)
Fixpoint replace_char (c : Ascii.ascii) (rep : string) (text : string) : string :=
  match text with
  | EmptyString => EmptyString
  | String a rest =>
      if Ascii.eqb a c then rep +:+ replace_char c rep rest
      else String a (replace_char c rep rest)
  end.

(** [text.replace(/pat/g, rep)] for a literal, non-empty [pat]: the
    text is scanned from the left; where [pat] starts, [rep] is written
    and the scan goes on behind the match.  [skip] counts the characters
    of a match still to pass over. *)
Fixpoint replace_from (pat rep : string) (skip : nat) (text : string) : string :=
  match text with
  | EmptyString => EmptyString
  | String a rest =>
      match skip with
      | S skip' => replace_from pat rep skip' rest
      | O =>
          if String.prefix pat text
          then rep +:+ replace_from pat rep (String.length pat - 1) rest
          else String a (replace_from pat rep 0 rest)
      end
  end.

Definition replace_all (pat rep : string) (text : string) : string :=
  replace_from pat rep 0 text.

(** The double quote character. *)
Definition quote : Ascii.ascii := "034"%char.

(** [escapeHtml]; [None] is [null] or [undefined]. *)
Definition escapeHtml (text : option string) : string :=
  match text with
  | None | Some EmptyString => EmptyString
  | Some text =>
      replace_char quote "&quot;"
        (replace_char ">"%char "&gt;"
           (replace_char "<"%char "&lt;"
              (replace_char "&"%char "&amp;" text)))
  end.

(** [safeSnippet]. *)
Definition safeSnippet (snippet : option string) : string :=
  match snippet with
  | None | Some EmptyString => EmptyString
  | Some _ =>
      let safe := escapeHtml snippet in
      let safe := replace_all "&lt;mark&gt;" "<mark>" safe in
      let safe := replace_all "&lt;/mark&gt;" "</mark>" safe in
      safe
  end.

(** A sidebar of three sessions of two projects, the second one open,
    nothing filtered. *)
Definition session (id proj : string) : Session :=
  {| session_id := id; project := Some proj; first_message := None;
     message_count := 3; started_at := "t"; agent := None |}.

Definition three_sessions : list Session :=
  [session "s1" "viewer"; session "s2" "parser"; session "s3" "viewer"].

Definition example_sidebar : Sidebar :=
  {| sessions := three_sessions; allSessions := three_sessions;
     currentSession := Some (session "s2" "parser");
     selectedProject := EmptyString |}.

(** The same sidebar once the project [viewer] is chosen in the filter. *)
Definition viewer_chosen : Sidebar :=
  {| sessions := three_sessions; allSessions := three_sessions;
     currentSession := Some (session "s2" "parser");
     selectedProject := "viewer" |}.

(** A repaint of the minimap falls due at a recalculation that finds
    the total height [total]: the total differs from the height painted
    last by more than a twentieth of that height, or more than ten
    heights have been measured since the last paint. *)
Definition repaint_due (total : Z) (s : State) : Prop :=
  lastMinimapHeight s < 20 * Z.abs (total - lastMinimapHeight s)
  \/ lastMeasuredCount s + 10 < Z.of_nat (size (messageHeights s)).

(** ** A session whose ids hold character references *)







(** ** Vocabulary of the further properties *)

(** The table of the sequence [msgs] for the cache [heights]. *)
Definition table_for (heights : gmap string Z) (msgs : list Message)
    : list Z * Z :=
  ((offsets_loop heights msgs 0 []).1,
   match msgs with
   | [] => 0
   | _ => Z.max 0 ((offsets_loop heights msgs 0 []).2 - GAP)
   end).

(** The sequence is the session's messages in the chosen order. *)
Definition sequence_of (newest : bool) (messages : list Message)
    : list Message :=
  if newest then reverse messages else messages.

(** One character per source character: what [escapeHtml] writes for
    it. *)
Definition escape_char (a : Ascii.ascii) : string :=
  if Ascii.eqb a "&"%char then "&amp;"
  else if Ascii.eqb a "<"%char then "&lt;"
  else if Ascii.eqb a ">"%char then "&gt;"
  else if Ascii.eqb a quote then "&quot;"
  else String a EmptyString.

Fixpoint escape_chars (text : string) : string :=
  match text with
  | EmptyString => EmptyString
  | String a rest => escape_char a +:+ escape_chars rest
  end.

(** A character that cannot open or close markup. *)
Definition plain_char (a : Ascii.ascii) : Prop :=
  a <> "<"%char /\ a <> ">"%char /\ a <> quote.

(** A text of such characters only. *)
Fixpoint all_plain (text : string) : Prop :=
  match text with
  | EmptyString => True
  | String a rest => plain_char a /\ all_plain rest
  end.

(** A text without any of the four characters [escapeHtml] rewrites. *)
Fixpoint free_of_markup (text : string) : Prop :=
  match text with
  | EmptyString => True
  | String a rest =>
      (a <> "&"%char /\ a <> "<"%char /\ a <> ">"%char /\ a <> quote)
      /\ free_of_markup rest
  end.

(** A text whose only markup is [<mark>] and [</mark>] tags. *)
Inductive only_mark_tags : string -> Prop :=
  | only_mark_nil : only_mark_tags EmptyString
  | only_mark_plain a text :
      plain_char a -> only_mark_tags text -> only_mark_tags (String a text)
  | only_mark_open text :
      only_mark_tags text -> only_mark_tags ("<mark>" +:+ text)
  | only_mark_close text :
      only_mark_tags text -> only_mark_tags ("</mark>" +:+ text).

(** The offset table and total height of a state are the table of its
    sequence for the cache [heights]. *)
Definition table_fresh (heights : gmap string Z) (s : State) : Prop :=
  (messageOffsets s, totalHeight s) = table_for heights (allMessages s).

(** Two states show the same session: same data, order, sequence and
    selection. *)
Definition same_view (s s' : State) : Prop :=
  currentSessionData s' = currentSessionData s
  /\ sortNewestFirst s' = sortNewestFirst s
  /\ allMessages s' = allMessages s
  /\ selectedMessageIndex s' = selectedMessageIndex s.

(** The second state has the sequence of the first and either its table
    or a freshly computed one for a cache of positive heights. *)
Definition table_step (s s' : State) : Prop :=
  allMessages s' = allMessages s
  /\ (messageOffsets s' = messageOffsets s /\ totalHeight s' = totalHeight s
      \/ exists heights, cache_positive heights /\ table_fresh heights s').

(** ** The offset table *)

Section Offsets.
Variable heights : gmap string Z.

Lemma offsets_loop_acc msgs offset acc :
  offsets_loop heights msgs offset acc =
  (acc ++ (offsets_loop heights msgs offset []).1,
   (offsets_loop heights msgs offset []).2).
Proof.
  revert offset acc. induction msgs as [|m rest IH]; intros offset acc; simpl.
  - by rewrite app_nil_r.
  - rewrite (IH _ (acc ++ [offset])), (IH _ [offset]). simpl.
    by rewrite <- app_assoc.
Qed.

Lemma offsets_loop_cons m rest offset :
  offsets_loop heights (m :: rest) offset [] =
  (offset :: (offsets_loop heights rest (offset + (heightOf heights m + GAP)) []).1,
   (offsets_loop heights rest (offset + (heightOf heights m + GAP)) []).2).
Proof. simpl. by rewrite offsets_loop_acc. Qed.

Lemma offsets_loop_length msgs offset :
  length (offsets_loop heights msgs offset []).1 = length msgs.
Proof.
  revert offset. induction msgs as [|m rest IH]; intros offset; [done|].
  rewrite offsets_loop_cons. simpl. by rewrite IH.
Qed.

Lemma offsets_loop_head m rest offset :
  (offsets_loop heights (m :: rest) offset []).1 !! 0%nat = Some offset.
Proof. by rewrite offsets_loop_cons. Qed.

(** Consecutive entries differ by the height and the gap. *)
Lemma offsets_loop_succ msgs offset i m :
  msgs !! i = Some m ->
  (S i < length msgs)%nat ->
  exists a,
    (offsets_loop heights msgs offset []).1 !! i = Some a /\
    (offsets_loop heights msgs offset []).1 !! S i
      = Some (a + (heightOf heights m + GAP)).
Proof.
  revert offset i. induction msgs as [|m0 rest IH]; intros offset i Hm Hi;
    [done|].
  rewrite offsets_loop_cons. destruct i as [|i]; simpl in *.
  - simplify_eq. exists offset. split; [done|].
    destruct rest as [|m1 rest]; [simpl in Hi; lia|].
    rewrite offsets_loop_cons. reflexivity.
  - apply IH; [done | lia].
Qed.

(** The running offset after the loop is one gap past the bottom of
    the last message. *)
Lemma offsets_loop_last msgs offset m :
  last msgs = Some m ->
  exists a,
    last (offsets_loop heights msgs offset []).1 = Some a /\
    (offsets_loop heights msgs offset []).2 = a + heightOf heights m + GAP.
Proof.
  revert offset. induction msgs as [|m0 rest IH]; intros offset Hl; [done|].
  destruct rest as [|m1 rest].
  - simpl in *. simplify_eq. exists offset. split; [done | lia].
  - rewrite last_cons_cons in Hl.
    destruct (IH (offset + (heightOf heights m0 + GAP)) Hl) as (a & Ha & Hf).
    exists a. rewrite (offsets_loop_cons m0).
    split; [|done]. 
    rewrite offsets_loop_cons in Ha |- *. simpl fst in *.
    by rewrite last_cons_cons.
Qed.

Lemma heightOf_positive m :
  cache_positive heights -> 0 < heightOf heights m.
Proof.
  intros Hpos. unfold heightOf.
  destruct (heights !! msg_id m) as [h|] eqn:E; [|done].
  specialize (Hpos _ _ E). destruct (h =? 0) eqn:E0; [done | lia].
Qed.

Lemma heightOf_cached m :
  cache_positive heights -> heightOf heights m = cached_or_estimate heights m.
Proof.
  intros Hpos. unfold heightOf, cached_or_estimate.
  destruct (heights !! msg_id m) as [h|] eqn:E; [|done].
  specialize (Hpos _ _ E). simpl. destruct (h =? 0) eqn:E0; [lia | done].
Qed.

Lemma offsets_loop_final msgs offset :
  cache_positive heights ->
  (offsets_loop heights msgs offset []).2 = offset + padded_height heights msgs.
Proof.
  intros Hpos. revert offset.
  induction msgs as [|m rest IH]; intros offset; [simpl; lia|].
  rewrite offsets_loop_cons. simpl. rewrite IH, heightOf_cached by done. lia.
Qed.

(** Every entry is at least the starting offset, and a later entry
    lies a gap below the bottom of an earlier message. *)
Lemma offsets_loop_lower msgs offset i a :
  cache_positive heights ->
  (offsets_loop heights msgs offset []).1 !! i = Some a -> offset <= a.
Proof.
  intros Hpos. revert offset i.
  induction msgs as [|m rest IH]; intros offset i Ha; [done|].
  rewrite offsets_loop_cons in Ha. destruct i as [|i]; simpl in Ha.
  - simplify_eq. lia.
  - apply IH in Ha. pose proof (heightOf_positive m Hpos). unfold GAP in *. lia.
Qed.

Lemma offsets_loop_mono msgs offset i j m a b :
  cache_positive heights ->
  (i < j)%nat ->
  msgs !! i = Some m ->
  (offsets_loop heights msgs offset []).1 !! i = Some a ->
  (offsets_loop heights msgs offset []).1 !! j = Some b ->
  a + heightOf heights m + GAP <= b.
Proof.
  intros Hpos. revert offset i j.
  induction msgs as [|m0 rest IH]; intros offset i j Hij Hm Ha Hb; [done|].
  rewrite offsets_loop_cons in Ha, Hb.
  destruct j as [|j]; [lia|]. destruct i as [|i]; simpl in *.
  - simplify_eq. apply offsets_loop_lower in Hb; [lia | done].
  - eapply (IH _ i j); eauto. lia.
Qed.
End Offsets.

Lemma calculateOffsets_fields s :
  allMessages (calculateOffsets s) = allMessages s /\
  messageHeights (calculateOffsets s) = messageHeights s /\
  selectedMessageIndex (calculateOffsets s) = selectedMessageIndex s /\
  visibleRange (calculateOffsets s) = visibleRange s.
Proof.
  unfold calculateOffsets. destruct (allMessages s) eqn:E; [by simpl|].
  by destruct (offsets_loop _ _ _ _); simpl.
Qed.

Lemma calculateOffsets_table s :
  messageOffsets (calculateOffsets s)
  = (offsets_loop (messageHeights s) (allMessages s) 0 []).1.
Proof.
  unfold calculateOffsets. destruct (allMessages s) eqn:E; [done|].
  by destruct (offsets_loop _ _ _ _).
Qed.

Lemma calculateOffsets_total s :
  totalHeight (calculateOffsets s)
  = match allMessages s with
    | [] => 0
    | _ => Z.max 0 ((offsets_loop (messageHeights s) (allMessages s) 0 []).2 - GAP)
    end.
Proof.
  unfold calculateOffsets. destruct (allMessages s) eqn:E; [done|].
  by destruct (offsets_loop _ _ _ _).
Qed.

(** C1. After [calculateOffsets] the table has one entry per message,
    the first entry is 0, consecutive entries differ by the height of
    the message (cached height if present, else the estimate 80) plus
    the gap 16, the total height is the last offset plus the last
    height, that is [sum (height(i) + G) - G], it is 0 for the empty
    sequence and it is never negative. *)
Theorem calculateOffsets_spec (s : State) :
  cache_positive (messageHeights s) ->
  let s' := calculateOffsets s in
  let height := cached_or_estimate (messageHeights s) in
  length (messageOffsets s') = length (allMessages s)
  /\ (allMessages s <> [] -> messageOffsets s' !! 0%nat = Some 0)
  /\ (forall i m, allMessages s !! i = Some m ->
        (S i < length (allMessages s))%nat ->
        exists a b, messageOffsets s' !! i = Some a
                 /\ messageOffsets s' !! S i = Some b
                 /\ b - a = height m + GAP)
  /\ (forall m, last (allMessages s) = Some m ->
        exists a, last (messageOffsets s') = Some a
               /\ totalHeight s' = a + height m
               /\ totalHeight s' = padded_height (messageHeights s) (allMessages s) - GAP)
  /\ (allMessages s = [] -> totalHeight s' = 0)
  /\ 0 <= totalHeight s'.
Proof.
  intros Hpos s' height. subst s'.
  rewrite calculateOffsets_table, calculateOffsets_total.
  split; [apply offsets_loop_length|].
  split. { destruct (allMessages s); [done|]. intros _. apply offsets_loop_head. }
  split.
  { intros i m Hm Hi.
    destruct (offsets_loop_succ (messageHeights s) _ 0 i m Hm Hi) as (a & Ha & Hb).
    exists a, (a + (heightOf (messageHeights s) m + GAP)).
    repeat split; [done..|]. unfold height. rewrite heightOf_cached by done. lia. }
  split.
  { intros m Hl.
    destruct (offsets_loop_last (messageHeights s) _ 0 m Hl) as (a & Ha & Hf).
    exists a. split; [done|].
    assert (0 <= a).
    { rewrite last_lookup in Ha. by apply offsets_loop_lower in Ha. }
    pose proof (heightOf_positive (messageHeights s) m Hpos) as Hm.
    pose proof (offsets_loop_final (messageHeights s) (allMessages s) 0 Hpos) as Hsum.
    rewrite heightOf_cached in Hf, Hm by done. fold (height m) in Hf, Hm.
    destruct (allMessages s) eqn:E; [done|]. rewrite <- E in *. lia. }
  split. { by intros ->. }
  destruct (allMessages s); lia.
Qed.

(** ** The binary searches *)

Lemma search_start_bisect fuel s viewStart lo hi :
  search_start fuel s viewStart lo hi
  = bisect fuel (fun mid => js_lt (msgBottom s mid) viewStart) lo hi.
Proof.
  revert lo hi. induction fuel as [|fuel IH]; intros lo hi; simpl; [done|].
  destruct (lo <=? hi); [|done]. by destruct (js_lt _ _).
Qed.

Lemma search_end_bisect fuel s viewEnd lo hi :
  search_end fuel s viewEnd lo hi
  = bisect fuel
      (fun mid => negb (js_gt (messageOffsets s !! Z.to_nat mid) viewEnd)) lo hi.
Proof.
  revert lo hi. induction fuel as [|fuel IH]; intros lo hi; simpl; [done|].
  destruct (lo <=? hi); [|done]. by destruct (js_gt _ _).
Qed.

Lemma midpoint_between lo hi :
  lo <= hi -> lo <= (lo + hi) / 2 <= hi.
Proof.
  intros H. split.
  - apply Z.div_le_lower_bound; lia.
  - apply Z.div_le_upper_bound; lia.
Qed.

Section Bisect.
Variable right : Z -> bool.

(** With fuel for the whole interval the loop ends when the interval
    is empty, inside the bounds it started from. *)
Lemma bisect_bounds fuel lo hi :
  lo <= hi + 1 ->
  hi + 1 - lo <= Z.of_nat fuel ->
  lo <= (bisect fuel right lo hi).1
  /\ (bisect fuel right lo hi).2 <= hi
  /\ (bisect fuel right lo hi).1 = (bisect fuel right lo hi).2 + 1.
Proof.
  revert lo hi. induction fuel as [|fuel IH]; intros lo hi Hle Hfuel; simpl.
  - lia.
  - destruct (Z.leb_spec lo hi) as [Hlh|Hlh]; [|simpl; lia].
    pose proof (midpoint_between lo hi Hlh) as Hmid.
    destruct (right _).
    + destruct (IH ((lo + hi) / 2 + 1) hi) as (? & ? & ?); lia.
    + destruct (IH lo ((lo + hi) / 2 - 1)) as (? & ? & ?); lia.
Qed.

(** More fuel than the interval needs changes nothing. *)
Lemma bisect_fuel fuel fuel' lo hi :
  hi + 1 - lo <= Z.of_nat fuel ->
  (fuel <= fuel')%nat ->
  bisect fuel' right lo hi = bisect fuel right lo hi.
Proof.
  revert fuel' lo hi.
  induction fuel as [|fuel IH]; intros fuel' lo hi Hfuel Hle.
  - destruct fuel'; simpl; [done|].
    destruct (Z.leb_spec lo hi); [lia | done].
  - destruct fuel' as [|fuel']; [lia|]. simpl.
    destruct (Z.leb_spec lo hi) as [Hlh|Hlh]; [|done].
    pose proof (midpoint_between lo hi Hlh) as Hmid.
    destruct (right _); apply IH; lia.
Qed.

(** When the test holds on an initial part of the interval only, the
    loop finds the boundary. *)
Lemma bisect_split fuel lo hi :
  lo <= hi + 1 ->
  hi + 1 - lo <= Z.of_nat fuel ->
  (forall j k, lo <= j -> j <= k -> k <= hi ->
     right k = true -> right j = true) ->
  (forall j, lo <= j < (bisect fuel right lo hi).1 -> right j = true)
  /\ (forall j, (bisect fuel right lo hi).2 < j <= hi -> right j = false).
Proof.
  revert lo hi.
  induction fuel as [|fuel IH]; intros lo hi Hle Hfuel Hmono; simpl.
  - split; intros j Hj; lia.
  - destruct (Z.leb_spec lo hi) as [Hlh|Hlh]; [|simpl; split; intros; lia].
    pose proof (midpoint_between lo hi Hlh) as Hmid.
    destruct (right ((lo + hi) / 2)) eqn:Hr.
    + destruct (IH ((lo + hi) / 2 + 1) hi) as [Hl Hh]; [lia | lia | |].
      { intros j k ? ? ?. apply Hmono; lia. }
      split; [|done]. intros j Hj.
      destruct (Z.le_gt_cases j ((lo + hi) / 2)).
      * apply (Hmono j ((lo + hi) / 2)); [lia..|done].
      * apply Hl. lia.
    + destruct (IH lo ((lo + hi) / 2 - 1)) as [Hl Hh]; [lia | lia | |].
      { intros j k ? ? ?. apply Hmono; lia. }
      split; [done|]. intros j Hj.
      destruct (Z.le_gt_cases ((lo + hi) / 2) j).
      * destruct (right j) eqn:Hrj; [|done].
        rewrite (Hmono ((lo + hi) / 2) j) in Hr; [done | lia..|done].
      * apply Hh. lia.
Qed.
End Bisect.

Lemma Qltb_lt a b : Qltb a b = true <-> (a < b)%Q.
Proof.
  rewrite Qlt_alt. unfold Qltb. destruct (a ?= b)%Q; split; congruence.
Qed.

Lemma Qltb_ge a b : Qltb a b = false <-> (b <= a)%Q.
Proof.
  rewrite <- not_true_iff_false, Qltb_lt. split.
  - apply Qnot_lt_le.
  - apply Qle_not_lt.
Qed.

Lemma inject_Z_pos z : 0 < z -> (0 < inject_Z z)%Q.
Proof. intros H. rewrite Zlt_Qlt in H. exact H. Qed.

Lemma inject_Z_nonneg z : 0 <= z -> (0 <= inject_Z z)%Q.
Proof. intros H. rewrite Zle_Qle in H. exact H. Qed.

(** The loops of [getVisibleRange] run to the end of their interval. *)
Lemma search_start_fuel s viewStart fuel :
  (length (allMessages s) <= fuel)%nat ->
  search_start fuel s viewStart 0 (Z.of_nat (length (allMessages s)) - 1)
  = search_start (length (allMessages s)) s viewStart 0
      (Z.of_nat (length (allMessages s)) - 1).
Proof. intros. rewrite !search_start_bisect. apply bisect_fuel; lia. Qed.

Lemma search_end_fuel s viewEnd fuel lo :
  0 <= lo ->
  (length (allMessages s) <= fuel)%nat ->
  search_end fuel s viewEnd lo (Z.of_nat (length (allMessages s)) - 1)
  = search_end (length (allMessages s)) s viewEnd lo
      (Z.of_nat (length (allMessages s)) - 1).
Proof. intros. rewrite !search_end_bisect. apply bisect_fuel; lia. Qed.

(** What [getVisibleRange] returns, in terms of the two searches. *)
Lemma getVisibleRange_unfold s scrollTop containerHeight :
  allMessages s <> [] ->
  let n := length (allMessages s) in
  let lo := (search_start n s (Qmax 0 (scrollTop - BUFFER_PX)) 0
               (Z.of_nat n - 1)).1 in
  let hi := (search_end n s (scrollTop + containerHeight + BUFFER_PX)%Q
               (Z.max 0 (lo - 1)) (Z.of_nat n - 1)).2 in
  getVisibleRange s scrollTop containerHeight
  = {| start := Z.max 0 (lo - 1); end_ := Z.min (Z.of_nat n) (hi + 2) |}.
Proof.
  intros Hne. unfold getVisibleRange. destruct (allMessages s) eqn:E; [done|].
  rewrite <- E. simpl.
  destruct (search_start _ _ _ _ _) as [lo ?]. simpl.
  by destruct (search_end _ _ _ _ _) as [? hi].
Qed.

(** C8. The range of [getVisibleRange] is a well-formed half-open range
    into the sequence for every state, scroll position and viewport
    height: [0 <= start <= end <= length], and [start < end] when the
    sequence is not empty, so every index of the range is in bounds. *)
Theorem getVisibleRange_well_formed (s : State) (scrollTop containerHeight : Q) :
  let r := getVisibleRange s scrollTop containerHeight in
  let n := Z.of_nat (length (allMessages s)) in
  0 <= start r /\ start r <= end_ r /\ end_ r <= n
  /\ (allMessages s <> [] -> start r < end_ r)
  /\ (forall i, start r <= i < end_ r ->
        is_Some (allMessages s !! Z.to_nat i)).
Proof.
  intros r n.
  assert (0 <= start r /\ start r <= end_ r /\ end_ r <= n
          /\ (allMessages s <> [] -> start r < end_ r)) as H.
  { subst r n. destruct (decide (allMessages s = [])) as [E|Hne].
    - unfold getVisibleRange. rewrite E. simpl. repeat split; [lia..|done].
    - rewrite getVisibleRange_unfold by done. simpl.
      assert (0 < length (allMessages s))%nat
        by (destruct (allMessages s); [done | simpl; lia]).
      rewrite search_start_bisect, search_end_bisect.
      set (n := length (allMessages s)) in *.
      destruct (bisect_bounds
                  (fun mid => js_lt (msgBottom s mid)
                                (Qmax 0 (scrollTop - BUFFER_PX)))
                  n 0 (Z.of_nat n - 1)) as (Hlo & Hhi & Heq); [lia..|].
      set (lo := (bisect n _ 0 (Z.of_nat n - 1)).1) in *.
      destruct (bisect_bounds
                  (fun mid => negb (js_gt (messageOffsets s !! Z.to_nat mid)
                                      (scrollTop + containerHeight + BUFFER_PX)))
                  n (Z.max 0 (lo - 1)) (Z.of_nat n - 1))
        as (Hlo2 & Hhi2 & Heq2); [lia..|].
      lia. }
  destruct H as (H0 & H1 & H2 & H3). repeat split; try done.
  intros i Hi. apply lookup_lt_is_Some. lia.
Qed.

(** ** A recomputed table *)

Section Recomputed.
Variable s : State.
Hypothesis Htable : table_recomputed s.
Hypothesis Hpos : cache_positive (messageHeights s).

Lemma recomputed_table :
  messageOffsets s = (offsets_loop (messageHeights s) (allMessages s) 0 []).1.
Proof. destruct Htable as [-> _]. apply calculateOffsets_table. Qed.

Lemma recomputed_length :
  length (messageOffsets s) = length (allMessages s).
Proof. rewrite recomputed_table. apply offsets_loop_length. Qed.

Lemma top_edge_lookup i :
  (i < length (allMessages s))%nat ->
  messageOffsets s !! i = Some (top_edge s i).
Proof.
  intros Hi. unfold top_edge.
  destruct (lookup_lt_is_Some_2 (messageOffsets s) i) as [a ->]; [|done].
  by rewrite recomputed_length.
Qed.

Lemma bottom_edge_height i m :
  allMessages s !! i = Some m ->
  bottom_edge s i = top_edge s i + heightOf (messageHeights s) m.
Proof.
  intros Hm. unfold bottom_edge. rewrite Hm. simpl.
  by rewrite heightOf_cached.
Qed.

Lemma msgBottom_edge i :
  (i < length (allMessages s))%nat ->
  msgBottom s (Z.of_nat i) = Some (bottom_edge s i).
Proof.
  intros Hi. unfold msgBottom. rewrite Nat2Z.id, top_edge_lookup by done.
  destruct (lookup_lt_is_Some_2 (allMessages s) i Hi) as [m Hm].
  rewrite Hm. simpl. by rewrite (bottom_edge_height i m).
Qed.

Lemma edges_order i :
  (i < length (allMessages s))%nat ->
  0 <= top_edge s i < bottom_edge s i.
Proof.
  intros Hi.
  destruct (lookup_lt_is_Some_2 (allMessages s) i Hi) as [m Hm].
  rewrite (bottom_edge_height i m Hm).
  pose proof (heightOf_positive (messageHeights s) m Hpos).
  pose proof (top_edge_lookup i Hi) as Ha. rewrite recomputed_table in Ha.
  apply offsets_loop_lower in Ha; [lia | done].
Qed.

Lemma edges_mono i j :
  (i < j < length (allMessages s))%nat ->
  bottom_edge s i + GAP <= top_edge s j.
Proof.
  intros [Hij Hj].
  destruct (lookup_lt_is_Some_2 (allMessages s) i) as [m Hm]; [lia|].
  rewrite (bottom_edge_height i m Hm).
  pose proof (top_edge_lookup i) as Ha. pose proof (top_edge_lookup j) as Hb.
  rewrite recomputed_table in Ha, Hb.
  apply (offsets_loop_mono (messageHeights s) (allMessages s) 0 i j);
    [done | done | done | apply Ha; lia | by apply Hb].
Qed.

Lemma edges_weak_mono i j :
  (i <= j < length (allMessages s))%nat ->
  top_edge s i <= top_edge s j /\ bottom_edge s i <= bottom_edge s j.
Proof.
  intros [Hij Hj]. destruct (decide (i = j)) as [->|Hne]; [lia|].
  pose proof (edges_mono i j). pose proof (edges_order i).
  pose proof (edges_order j). unfold GAP in *. lia.
Qed.

(** The two searches of [getVisibleRange] on a recomputed table: [lo]
    is where the first one ends, [hi] where the second one ends. *)
Lemma getVisibleRange_searched scrollTop containerHeight :
  allMessages s <> [] ->
  let n := length (allMessages s) in
  let viewStart := Qmax 0 (scrollTop - BUFFER_PX) in
  let viewEnd := (scrollTop + containerHeight + BUFFER_PX)%Q in
  exists lo hi : nat,
    getVisibleRange s scrollTop containerHeight
    = {| start := Z.max 0 (Z.of_nat lo - 1);
         end_ := Z.min (Z.of_nat n) (Z.of_nat hi + 1) |}
    /\ (lo <= n)%nat
    /\ (lo - 1 <= hi <= n)%nat
    /\ (forall j, (j < lo)%nat -> (inject_Z (bottom_edge s j) < viewStart)%Q)
    /\ (forall j, (lo <= j < n)%nat ->
          (viewStart <= inject_Z (bottom_edge s j))%Q)
    /\ (forall j, (lo - 1 <= j < hi)%nat ->
          (inject_Z (top_edge s j) <= viewEnd)%Q)
    /\ (forall j, (hi <= j < n)%nat -> (viewEnd < inject_Z (top_edge s j))%Q).
Proof.
  intros Hne n viewStart viewEnd.
  rewrite getVisibleRange_unfold by done. fold n viewStart viewEnd.
  assert (0 < n)%nat
    by (subst n; destruct (allMessages s); [done | simpl; lia]).
  rewrite search_start_bisect, search_end_bisect.
  set (right1 := fun mid => js_lt (msgBottom s mid) viewStart).
  set (right2 := fun mid =>
                   negb (js_gt (messageOffsets s !! Z.to_nat mid) viewEnd)).
  assert (forall j, (j < n)%nat ->
            (right1 (Z.of_nat j) = true
             <-> (inject_Z (bottom_edge s j) < viewStart)%Q)
            /\ (right1 (Z.of_nat j) = false
             <-> (viewStart <= inject_Z (bottom_edge s j))%Q)) as Hr1.
  { intros j Hj. unfold right1. rewrite msgBottom_edge by done. simpl.
    split; [apply Qltb_lt | apply Qltb_ge]. }
  assert (forall j, (j < n)%nat ->
            (right2 (Z.of_nat j) = true
             <-> (inject_Z (top_edge s j) <= viewEnd)%Q)
            /\ (right2 (Z.of_nat j) = false
             <-> (viewEnd < inject_Z (top_edge s j))%Q)) as Hr2.
  { intros j Hj. unfold right2.
    rewrite Nat2Z.id, top_edge_lookup by done. simpl.
    rewrite negb_true_iff, negb_false_iff.
    split; [apply Qltb_ge | apply Qltb_lt]. }
  destruct (bisect_bounds right1 n 0 (Z.of_nat n - 1))
    as (Hlo & Hhi & Heq); [lia..|].
  destruct (bisect_split right1 n 0 (Z.of_nat n - 1))
    as [Hleft Hright]; [lia | lia | |].
  { intros j k Hj Hjk Hk.
    rewrite <- (Z2Nat.id j), <- (Z2Nat.id k) by lia.
    rewrite (proj1 (Hr1 (Z.to_nat j) ltac:(lia))).
    rewrite (proj1 (Hr1 (Z.to_nat k) ltac:(lia))).
    destruct (edges_weak_mono (Z.to_nat j) (Z.to_nat k)) as [_ Hb];
      [fold n; lia|].
    rewrite Zle_Qle in Hb. intros Hlt. eapply Qle_lt_trans; eauto. }
  set (lo := (bisect n right1 0 (Z.of_nat n - 1)).1) in *.
  destruct (bisect_bounds right2 n (Z.max 0 (lo - 1)) (Z.of_nat n - 1))
    as (Hlo2 & Hhi2 & Heq2); [lia..|].
  destruct (bisect_split right2 n (Z.max 0 (lo - 1)) (Z.of_nat n - 1))
    as [Hleft2 Hright2]; [lia | lia | |].
  { intros j k Hj Hjk Hk.
    rewrite <- (Z2Nat.id j), <- (Z2Nat.id k) by lia.
    rewrite (proj1 (Hr2 (Z.to_nat j) ltac:(lia))).
    rewrite (proj1 (Hr2 (Z.to_nat k) ltac:(lia))).
    destruct (edges_weak_mono (Z.to_nat j) (Z.to_nat k)) as [Ht _];
      [fold n; lia|].
    rewrite Zle_Qle in Ht. intros Hle. eapply Qle_trans; eauto. }
  set (hi := (bisect n right2 (Z.max 0 (lo - 1)) (Z.of_nat n - 1)).2) in *.
  exists (Z.to_nat lo), (Z.to_nat (hi + 1)).
  rewrite !Z2Nat.id by lia.
  split. { f_equal; lia. }
  split; [lia|]. split; [lia|].
  split. { intros j Hj. apply Hr1; [lia|]. apply Hleft. lia. }
  split. { intros j Hj. apply Hr1; [lia|]. apply Hright. lia. }
  split. { intros j Hj. apply Hr2; [lia|]. apply Hleft2. lia. }
  intros j Hj. apply Hr2; [lia|]. apply Hright2. lia.
Qed.
End Recomputed.

(** C2. On a recomputed table, the window of [getVisibleRange] contains
    every index whose pixel band [[offset, offset + height]] meets the
    viewport band [[scrollTop, scrollTop + viewportHeight]]. *)
Theorem getVisibleRange_covers_viewport (s : State)
    (scrollTop viewportHeight : Q) (i : nat) :
  table_recomputed s ->
  cache_positive (messageHeights s) ->
  (i < length (allMessages s))%nat ->
  band_in_viewport s scrollTop viewportHeight i ->
  let r := getVisibleRange s scrollTop viewportHeight in
  start r <= Z.of_nat i < end_ r.
Proof.
  intros Htable Hpos Hi [Htop Hbottom] r. subst r.
  assert (allMessages s <> []) as Hne
    by (destruct (allMessages s); [simpl in Hi; lia | done]).
  destruct (getVisibleRange_searched s Htable Hpos scrollTop viewportHeight Hne)
    as (lo & hi & -> & Hlo & Hhi & Hbelow & _ & _ & Habove).
  simpl.
  assert (lo <= i)%nat as Hloi.
  { destruct (decide (lo <= i)%nat) as [|Hn]; [done|].
    specialize (Hbelow i ltac:(lia)).
    pose proof (edges_order s Htable Hpos i Hi) as [H0 Hb].
    assert (0 < bottom_edge s i) as Hb0 by lia.
    apply inject_Z_pos in Hb0. unfold BUFFER_PX in Hbelow.
    apply Q.max_lt_iff in Hbelow as [Hlt|Hlt]; lra. }
  assert (i < hi)%nat as Hihi.
  { destruct (decide (i < hi)%nat) as [|Hn]; [done|].
    specialize (Habove i ltac:(lia)). unfold BUFFER_PX in Habove. lra. }
  lia.
Qed.

(** C3. On a recomputed table of a non-empty sequence, a viewport of
    non-negative height gets [start] = the first index whose bottom edge
    [offset + height] is [>=] the start of the band [scrollTop - BUFFER],
    minus one, clamped to 0, and [end] = the last index whose top edge
    [offset] is [<=] the end of the band
    [scrollTop + viewportHeight + BUFFER], plus 2, clamped to the
    length; the empty sequence gets [{0, 0}]. *)
Theorem getVisibleRange_first_last (s : State) (scrollTop viewportHeight : Q) :
  let n := length (allMessages s) in
  (allMessages s = [] ->
   getVisibleRange s scrollTop viewportHeight = {| start := 0; end_ := 0 |})
  /\ (table_recomputed s ->
      cache_positive (messageHeights s) ->
      (0 <= viewportHeight)%Q ->
      forall f l : nat,
        first_index n
          (fun i => (scrollTop - BUFFER_PX <= inject_Z (bottom_edge s i))%Q) f ->
        last_index n
          (fun i => (inject_Z (top_edge s i)
                     <= scrollTop + viewportHeight + BUFFER_PX)%Q) l ->
        getVisibleRange s scrollTop viewportHeight
        = {| start := Z.max 0 (Z.of_nat f - 1);
             end_ := Z.min (Z.of_nat n) (Z.of_nat l + 2) |}).
Proof.
  intros n. split.
  { intros E. unfold getVisibleRange. by rewrite E. }
  intros Htable Hpos Hvh f l (Hf & HPf & Hfirst) (Hl & HPl & Hlast).
  assert (allMessages s <> []) as Hne
    by (subst n; destruct (allMessages s); [simpl in Hf; lia | done]).
  destruct (getVisibleRange_searched s Htable Hpos scrollTop viewportHeight Hne)
    as (lo & hi & -> & Hlo & Hhi & Hbelow & Hfrom & Hupto & Habove).
  fold n in Hlo, Hhi, Hfrom, Habove.
  assert (lo = f) as ->.
  { apply Nat.le_antisymm.
    - destruct (decide (lo <= f)%nat) as [|Hn]; [done|].
      specialize (Hbelow f ltac:(lia)).
      pose proof (edges_order s Htable Hpos f Hf) as [H0 Hb].
      assert (0 < bottom_edge s f) as Hb0 by lia.
      apply inject_Z_pos in Hb0.
      apply Q.max_lt_iff in Hbelow as [Hlt|Hlt]; lra.
    - destruct (decide (f <= lo)%nat) as [|Hn]; [done|].
      destruct (Hfirst lo ltac:(lia)).
      specialize (Hfrom lo ltac:(lia)).
      apply Q.max_lub_iff in Hfrom as [_ Hle]. done. }
  assert (hi = S l) as ->; [|f_equal; lia].
  apply Nat.le_antisymm.
  - destruct (decide (hi <= S l)%nat) as [|Hn]; [done|].
    destruct (decide (f - 1 <= hi - 1)%nat) as [Hin|Hout].
    + destruct (Hlast (hi - 1)%nat ltac:(lia)). apply Hupto. lia.
    + (* the second search found nothing from [start] on *)
      assert (hi = f - 1)%nat as -> by lia.
      specialize (Habove (f - 1)%nat ltac:(lia)).
      specialize (Hbelow (f - 1)%nat ltac:(lia)).
      pose proof (edges_order s Htable Hpos (f - 1)%nat ltac:(lia)) as [H0 Hb].
      rewrite Zlt_Qlt in Hb. apply inject_Z_nonneg in H0.
      unfold BUFFER_PX in *.
      exfalso. apply Q.max_lt_iff in Hbelow as [Hlt|Hlt]; lra.
  - destruct (decide (S l <= hi)%nat) as [|Hn]; [done|].
    specialize (Habove l ltac:(lia)). lra.
Qed.

(** ** The height cache *)

Lemma cache_positive_empty : cache_positive ∅.
Proof. intros id h. by rewrite lookup_empty. Qed.

Lemma cache_positive_insert (heights : gmap string Z) id h :
  0 < h -> cache_positive heights -> cache_positive (<[id := h]> heights).
Proof.
  intros Hh Hpos id' h'. rewrite lookup_insert. case_decide.
  - intros [= <-]. done.
  - apply Hpos.
Qed.

Lemma measure_element_positive acc el :
  cache_positive acc.1 -> cache_positive (measure_element acc el).1.
Proof.
  intros Hpos. destruct el as [id height]. unfold measure_element.
  destruct (Z.ltb_spec 0 height); simpl; [|done].
  destruct (negb _); [|done]. by apply cache_positive_insert.
Qed.

Lemma measure_rendered_positive els heights :
  cache_positive heights -> cache_positive (measure_rendered els heights).1.
Proof.
  unfold measure_rendered. generalize false. revert heights.
  induction els as [|el els IH]; intros heights changed Hpos; [done|].
  simpl. pose proof (measure_element_positive (heights, changed) el Hpos) as H.
  destruct (measure_element (heights, changed) el) as [heights' changed'].
  by apply IH.
Qed.

Lemma remeasure_positive els heights :
  cache_positive heights ->
  cache_positive (fold_left remeasure_element els heights).
Proof.
  revert heights. induction els as [|[id height] els IH]; intros heights Hpos;
    [done|].
  simpl. apply IH. destruct (Z.ltb_spec 0 height); [|done].
  by apply cache_positive_insert.
Qed.

Lemma messageHeights_calculateOffsets s :
  messageHeights (calculateOffsets s) = messageHeights s.
Proof. apply calculateOffsets_fields. Qed.

Lemma messageHeights_renderMinimap dom s :
  messageHeights (renderMinimap dom s) = messageHeights s.
Proof.
  unfold renderMinimap. destruct (minimap dom); [|done].
  repeat case_bool_decide; try done. apply messageHeights_calculateOffsets.
Qed.

Lemma messageHeights_scheduleHeightRecalc s :
  messageHeights (scheduleHeightRecalc s) = messageHeights s.
Proof. unfold scheduleHeightRecalc. by destruct (heightRecalcTimeout s). Qed.

Lemma renderVisibleMessages_positive dom s :
  cache_positive (messageHeights s) ->
  cache_positive (messageHeights (renderVisibleMessages dom s)).
Proof.
  intros Hpos. unfold renderVisibleMessages.
  destruct (negb (messagesContainer dom)); [done|].
  destruct (_ || _); [done|].
  pose proof (measure_rendered_positive
                (rendered_elements dom (allMessages s) (render_start s)
                   (render_end s)) _ Hpos) as H.
  destruct (measure_rendered _ _) as [heights changed].
  destruct changed; [rewrite messageHeights_scheduleHeightRecalc|]; done.
Qed.

Lemma renderSession_positive messages dom s :
  cache_positive (messageHeights (renderSession messages dom s)).
Proof.
  unfold renderSession. apply renderVisibleMessages_positive. simpl.
  rewrite messageHeights_calculateOffsets. simpl. apply cache_positive_empty.
Qed.

Lemma selectMessage_heights index dom s :
  messageHeights (selectMessage index dom s).1 = messageHeights s.
Proof. unfold selectMessage. by destruct (allMessages s). Qed.

Lemma step_positive s s' :
  step s s' ->
  cache_positive (messageHeights s) -> cache_positive (messageHeights s').
Proof.
  intros Hstep Hpos. destruct Hstep.
  - apply renderSession_positive.
  - unfold renderSession_timeout.
    by rewrite messageHeights_renderMinimap, messageHeights_calculateOffsets.
  - unfold toggleSort. simpl.
    destruct (currentSessionData s); [apply renderSession_positive | done].
  - apply cache_positive_empty.
  - unfold toggleThinking_timeout.
    rewrite messageHeights_renderMinimap, messageHeights_calculateOffsets.
    simpl. by apply remeasure_positive.
  - unfold heightRecalc_timeout.
    repeat match goal with
           | |- context [if ?b then _ else _] => destruct b
           end;
      rewrite ?messageHeights_renderMinimap; simpl;
      by rewrite messageHeights_calculateOffsets.
  - unfold handleScroll_frame. destruct (_ || _); [|done].
    by apply renderVisibleMessages_positive.
  - unfold handleMinimapClick. by destruct (minimap dom).
  - unfold minimapClick_frame. simpl. by apply renderVisibleMessages_positive.
  - unfold minimapClick_timeout. destruct (minimapNeedsRender s); [|done].
    by rewrite messageHeights_renderMinimap.
  - by rewrite selectMessage_heights.
  - unfold navigateMessages. destruct (allMessages s); [done|].
    destruct (_ =? _); by rewrite selectMessage_heights.
Qed.

(** C9. Every entry of the height cache is strictly positive in every
    state the script reaches: the measuring loops of
    [renderVisibleMessages] and of the [toggleThinking] timer store a
    height only when it is [> 0] (a measured 0 is never stored), and
    [renderSession] and [toggleThinking] clear the cache; a lookup of a
    missing entry gives the estimate 80. *)
Theorem height_cache_positive :
  (forall s, reachable s -> cache_positive (messageHeights s))
  /\ (forall acc id height,
        height <= 0 -> measure_element acc (id, height) = acc)
  /\ (forall heights id height,
        height <= 0 -> remeasure_element heights (id, height) = heights)
  /\ (forall messages dom s heights,
        messageHeights (renderSession messages dom s) = heights ->
        exists els, heights = (measure_rendered els ∅).1)
  /\ (forall heights m,
        heights !! msg_id m = None -> heightOf heights m = ESTIMATED_HEIGHT).
Proof.
  split.
  { intros s Hs. induction Hs as [|s s' _ IH Hstep].
    - apply cache_positive_empty.
    - by apply (step_positive s s'). }
  split.
  { intros acc id height Hh. unfold measure_element.
    by destruct (Z.ltb_spec 0 height); [lia|]. }
  split.
  { intros heights id height Hh. unfold remeasure_element.
    by destruct (Z.ltb_spec 0 height); [lia|]. }
  split.
  { intros messages dom s heights <-. unfold renderSession.
    unfold renderVisibleMessages. simpl negb. cbv iota.
    match goal with
    | |- context [if ?b then _ else _] => destruct b
    end.
    - exists []. simpl. by rewrite messageHeights_calculateOffsets.
    - simpl. rewrite messageHeights_calculateOffsets. simpl.
      match goal with
      | |- context [measure_rendered ?els ∅] =>
          exists els; destruct (measure_rendered els ∅) as [h c]
      end.
      destruct c; [rewrite messageHeights_scheduleHeightRecalc|]; done. }
  intros heights m Hm. unfold heightOf. by rewrite Hm.
Qed.

(** ** Rendering a measured range again *)

Lemma measure_element_same acc id height :
  acc.1 !! id = Some height -> measure_element acc (id, height) = acc.
Proof.
  intros H. unfold measure_element.
  rewrite bool_decide_eq_true_2 by done. simpl. by rewrite andb_false_r.
Qed.

Lemma measure_rendered_same els (heights : gmap string Z) :
  Forall (fun el => heights !! el.1 = Some el.2) els ->
  measure_rendered els heights = (heights, false).
Proof.
  unfold measure_rendered. induction 1 as [|[id height] els Hel _ IH]; [done|].
  cbn [fold_left]. rewrite (measure_element_same (heights, false)); done.
Qed.

Lemma rendered_elements_lookup dom msgs start end_ el :
  0 <= start ->
  el ∈ rendered_elements dom msgs start end_ ->
  exists i m, start <= Z.of_nat i /\ (start < end_ -> Z.of_nat i < end_)
           /\ msgs !! i = Some m
           /\ el = (elementId dom (msg_id m), offsetHeight dom i).
Proof.
  unfold rendered_elements. rewrite list_elem_of_omap.
  intros Hstart (i & Hi & Hel). apply list_elem_of_In, in_seq in Hi.
  destruct (msgs !! i) as [m|] eqn:Hm; [|done]. simpl in Hel.
  exists i, m. repeat split; [lia | lia | done | congruence].
Qed.

Lemma set_messageHeights_same s : set_messageHeights (messageHeights s) s = s.
Proof. by destruct s. Qed.

(** Rendering a range writes nothing to the height cache, leaves the
    heights-changed flag false and schedules no recalculation when every
    element of the range has its measured height in the cache under the
    [id] the measuring loop reads back from it. *)
Lemma renderVisibleMessages_measured_again (dom : Dom) (s : State) :
  (forall i m, render_start s <= Z.of_nat i < render_end s ->
     allMessages s !! i = Some m ->
     messageHeights s !! elementId dom (msg_id m)
     = Some (offsetHeight dom i)) ->
  measure_rendered
    (rendered_elements dom (allMessages s) (render_start s) (render_end s))
    (messageHeights s)
  = (messageHeights s, false)
  /\ renderVisibleMessages dom s = s.
Proof.
  intros Hsame.
  assert (render_start s < render_end s ->
          measure_rendered
            (rendered_elements dom (allMessages s) (render_start s)
               (render_end s)) (messageHeights s)
          = (messageHeights s, false)) as Hm.
  { intros Hlt. apply measure_rendered_same, Forall_forall. intros el Hel.
    apply rendered_elements_lookup in Hel as (i & m & Hlo & Hhi & Hmsg & ->);
      [|unfold render_start; lia].
    simpl. apply Hsame; [lia | done]. }
  split.
  - destruct (Z.lt_ge_cases (render_start s) (render_end s)) as [Hlt|Hge];
      [by apply Hm|].
    unfold rendered_elements.
    by replace (Z.to_nat (render_end s - render_start s)) with 0%nat by lia.
  - unfold renderVisibleMessages.
    destruct (negb (messagesContainer dom)); [done|].
    destruct (Z.leb_spec (render_end s) (render_start s)); [done|].
    simpl. case_bool_decide; [done|]. rewrite Hm by done.
    apply set_messageHeights_same.
Qed.

(** ** Selection *)

Lemma nonempty_length (s : State) :
  allMessages s <> [] -> 0 < Z.of_nat (length (allMessages s)).
Proof. destruct (allMessages s); [done | simpl; lia]. Qed.

Lemma Qle_bool_false a b : Qle_bool a b = false <-> ~ (a <= b)%Q.
Proof. by rewrite <- Qle_bool_iff, not_true_iff_false. Qed.

Lemma selectMessage_nonempty index dom s :
  allMessages s <> [] ->
  selectMessage index dom s
  = let index := Z.max 0 (Z.min index (Z.of_nat (length (allMessages s)) - 1)) in
    let msgOffset := default 0 (messageOffsets s !! Z.to_nat index) in
    let msgHeight :=
      match allMessages s !! Z.to_nat index with
      | Some m => heightOf (messageHeights s) m
      | None => ESTIMATED_HEIGHT
      end in
    (set_selectedMessageIndex index s,
     if Qle_bool (scrollTop dom) (inject_Z msgOffset)
        && Qle_bool (inject_Z (msgOffset + msgHeight))
                    (scrollTop dom + clientHeight dom)
     then None
     else Some (inject_Z (Z.max 0 (msgOffset - 100)))).
Proof. intros Hne. unfold selectMessage. by destruct (allMessages s). Qed.

(** C5. On a non-empty sequence [selectMessage] clamps the index to
    [[0, len - 1]] and selects it; when the band of the target
    [[offset, offset + height]] lies inside the viewport
    [[scrollTop, scrollTop + viewportHeight]] it does not scroll,
    otherwise it scrolls to the offset minus the margin 100, clamped
    to [>= 0].  The offset of an index that the table does not have
    counts as 0, as [top_edge] does. *)
Theorem selectMessage_scroll (index : Z) (dom : Dom) (s : State) :
  allMessages s <> [] ->
  cache_positive (messageHeights s) ->
  let n := Z.of_nat (length (allMessages s)) in
  let clamped := Z.max 0 (Z.min index (n - 1)) in
  let i := Z.to_nat clamped in
  let inside :=
    (scrollTop dom <= inject_Z (top_edge s i))%Q
    /\ (inject_Z (bottom_edge s i) <= scrollTop dom + clientHeight dom)%Q in
  0 <= clamped <= n - 1
  /\ (0 <= index <= n - 1 -> clamped = index)
  /\ selectedMessageIndex (selectMessage index dom s).1 = clamped
  /\ (inside -> (selectMessage index dom s).2 = None)
  /\ (~ inside ->
      (selectMessage index dom s).2
      = Some (inject_Z (Z.max 0 (top_edge s i - 100)))).
Proof.
  intros Hne Hpos n clamped i inside.
  pose proof (nonempty_length s Hne) as Hn. fold n in Hn.
  split; [lia|]. split; [lia|].
  rewrite selectMessage_nonempty by done. cbv zeta. fold n clamped i.
  cbn [fst snd selectedMessageIndex set_selectedMessageIndex].
  split; [done|].
  destruct (lookup_lt_is_Some_2 (allMessages s) i) as [m Hm]; [lia|].
  rewrite Hm.
  assert (bottom_edge s i = top_edge s i + heightOf (messageHeights s) m) as Hb.
  { unfold bottom_edge. rewrite Hm. simpl. by rewrite heightOf_cached. }
  fold (top_edge s i). rewrite <- Hb.
  destruct (Qle_bool (scrollTop dom) (inject_Z (top_edge s i))) eqn:H1;
    [destruct (Qle_bool (inject_Z (bottom_edge s i))
                 (scrollTop dom + clientHeight dom)) eqn:H2|]; simpl.
  - split; [done|]. intros []. by split; apply Qle_bool_iff.
  - apply Qle_bool_false in H2. split; [|done]. by intros [_ ?].
  - apply Qle_bool_false in H1. split; [|done]. by intros [? _].
Qed.

(** C10. With no message selected (index [-1]) and a non-empty
    sequence, [navigateMessages] selects index 0 going forward and the
    last index going backward; on the empty sequence it changes
    nothing. *)
Theorem navigateMessages_unselected (direction : Z) (dom : Dom) (s : State) :
  (allMessages s = [] -> navigateMessages direction dom s = (s, None))
  /\ (allMessages s <> [] ->
      selectedMessageIndex s = -1 ->
      (0 < direction ->
       selectedMessageIndex (navigateMessages direction dom s).1 = 0)
      /\ (direction <= 0 ->
          selectedMessageIndex (navigateMessages direction dom s).1
          = Z.of_nat (length (allMessages s)) - 1)).
Proof.
  split.
  { intros E. unfold navigateMessages. by rewrite E. }
  intros Hne Hsel. pose proof (nonempty_length s Hne) as Hn.
  assert (navigateMessages direction dom s
          = selectMessage (if 0 <? direction then 0
                           else Z.of_nat (length (allMessages s)) - 1) dom s)
    as ->.
  { unfold navigateMessages. rewrite Hsel. by destruct (allMessages s). }
  rewrite selectMessage_nonempty by done. simpl.
  split; intros Hd.
  - destruct (Z.ltb_spec 0 direction); lia.
  - destruct (Z.ltb_spec 0 direction); lia.
Qed.

(** ** The minimap click *)

(** C7. A click on the minimap at vertical position [y], with
    [scale = minimap height / max(totalHeight, 1)], asks the content to
    scroll to [y / scale - viewportHeight / 2] clamped to [>= 0]. *)
Theorem handleMinimapClick_target (clientY rectTop : Q) (dom : Dom) (s : State)
    (minimapHeight : Q) :
  minimap dom = Some minimapHeight ->
  (0 < minimapHeight)%Q ->
  let y := (clientY - rectTop)%Q in
  let scale := (minimapHeight / inject_Z (Z.max (totalHeight s) 1))%Q in
  let target := (y / scale - clientHeight dom / 2)%Q in
  (0 < scale)%Q
  /\ (handleMinimapClick clientY rectTop dom s).2 = Some (Qmax 0 target)
  /\ (0 <= Qmax 0 target)%Q
  /\ ((0 <= target)%Q -> Qmax 0 target == target)
  /\ ((target <= 0)%Q -> Qmax 0 target == 0)
  /\ target == y * inject_Z (Z.max (totalHeight s) 1) / minimapHeight
               - clientHeight dom / 2.
Proof.
  intros Hmm Hpos y scale target.
  assert (0 < inject_Z (Z.max (totalHeight s) 1))%Q as Htot
    by (apply inject_Z_pos; lia).
  split.
  { subst scale. apply Qlt_shift_div_l; [done|]. lra. }
  split. { unfold handleMinimapClick. by rewrite Hmm. }
  split; [apply Q.le_max_l|].
  split; [apply Q.max_r|].
  split; [apply Q.max_l|].
  subst target scale. field. split; lra.
Qed.

(** ** The scenario of three messages *)

Lemma table_recomputed_calculateOffsets s :
  table_recomputed (calculateOffsets s).
Proof.
  pose proof (calculateOffsets_fields s) as (Hm & Hh & _).
  unfold table_recomputed.
  rewrite (calculateOffsets_table (calculateOffsets s)),
          (calculateOffsets_total (calculateOffsets s)), Hm, Hh.
  by rewrite <- calculateOffsets_table, <- calculateOffsets_total.
Qed.

Lemma measured_fields id height s :
  allMessages (measured id height s) = allMessages s
  /\ messageHeights (measured id height s) = <[id := height]> (messageHeights s).
Proof.
  unfold measured.
  by pose proof (calculateOffsets_fields
    (set_messageHeights (<[id := height]> (messageHeights s)) s)) as (-> & -> & _).
Qed.

(** C4, as the code has it. Three messages with no cached height get the
    offsets [[0, 96, 192]] and the total height 272.  Storing the
    measured height 40 for the second message and recomputing gives the
    offsets [[0, 96, 152]] and the total height 232; the offsets
    [[0, 56, 152]] are those of a measurement of the first message. *)
Theorem three_messages_offsets (s : State) (a b c : Message) :
  allMessages s = [a; b; c] ->
  messageHeights s = ∅ ->
  let s1 := calculateOffsets s in
  messageOffsets s1 = [0; 96; 192] /\ totalHeight s1 = 272
  /\ (msg_id a <> msg_id b -> msg_id c <> msg_id b ->
      messageOffsets (measured (msg_id b) 40 s1) = [0; 96; 152]
      /\ totalHeight (measured (msg_id b) 40 s1) = 232)
  /\ (msg_id b <> msg_id a -> msg_id c <> msg_id a ->
      messageOffsets (measured (msg_id a) 40 s1) = [0; 56; 152]
      /\ totalHeight (measured (msg_id a) 40 s1) = 232).
Proof.
  intros Hmsgs Hcache s1.
  pose proof (calculateOffsets_fields s) as (Hm & Hh & _). fold s1 in Hm, Hh.
  assert (forall id s2, s2 = measured id 40 s1 ->
            messageOffsets s2
            = (offsets_loop (<[id := 40]> ∅) [a; b; c] 0 []).1
            /\ totalHeight s2
            = Z.max 0 ((offsets_loop (<[id := 40]> ∅) [a; b; c] 0 []).2 - GAP))
    as Hmeasured.
  { intros id s2 ->. unfold measured.
    rewrite calculateOffsets_table, calculateOffsets_total. simpl.
    by rewrite Hm, Hh, Hmsgs, Hcache. }
  split; [|split; [|split]].
  - subst s1. rewrite calculateOffsets_table, Hmsgs, Hcache. simpl.
    unfold heightOf. by rewrite !lookup_empty.
  - subst s1. rewrite calculateOffsets_total, Hmsgs, Hcache. simpl.
    unfold heightOf. by rewrite !lookup_empty.
  - intros Hab Hcb. destruct (Hmeasured (msg_id b) _ eq_refl) as [-> ->].
    simpl. unfold heightOf.
    rewrite lookup_insert_eq, !lookup_insert_ne, !lookup_empty by done.
    done.
  - intros Hba Hca. destruct (Hmeasured (msg_id a) _ eq_refl) as [-> ->].
    simpl. unfold heightOf.
    rewrite lookup_insert_eq, !lookup_insert_ne, !lookup_empty by done.
    done.
Qed.

Example second_measured_table :
  messageOffsets second_measured = [0; 96; 152]
  /\ totalHeight second_measured = 232.
Proof. split; vm_compute; reflexivity. Qed.

Example first_measured_table :
  messageOffsets first_measured = [0; 56; 152]
  /\ totalHeight first_measured = 232.
Proof. split; vm_compute; reflexivity. Qed.

(** The scenario as C4 words it does not hold: with the second message
    measured at 40 the offsets are not [[0, 56, 152]]. *)
Lemma second_measured_not_56 :
  ~ (messageOffsets three_estimated = [0; 96; 192]
     /\ totalHeight three_estimated = 272
     /\ messageOffsets second_measured = [0; 56; 152]
     /\ totalHeight second_measured = 232).
Proof.
  intros (_ & _ & H & _).
  rewrite (proj1 second_measured_table) in H. discriminate H.
Qed.

Lemma three_messages_offsets_witness :
  (messageOffsets three_estimated = [0; 96; 192]
   /\ totalHeight three_estimated = 272)
  /\ (messageOffsets second_measured = [0; 96; 152]
      /\ totalHeight second_measured = 232)
  /\ (messageOffsets first_measured = [0; 56; 152]
      /\ totalHeight first_measured = 232).
Proof.
  pose proof (three_messages_offsets
                (set_allMessages three_messages initial_state)
                (message "m1") (message "m2") (message "m3")
                eq_refl eq_refl) as (H1 & H2 & H3 & H4).
  split; [exact (conj H1 H2)|].
  split; [apply H3 | apply H4]; vm_compute; discriminate.
Defined.

(** ** The functions at the example states *)

(** The whole short list fits the overscanned band. *)
Example getVisibleRange_short_list :
  getVisibleRange three_estimated 0 200 = {| start := 0; end_ := 3 |}
  /\ getVisibleRange second_measured 0 200 = {| start := 0; end_ := 3 |}.
Proof. split; vm_compute; reflexivity. Qed.

(** In the middle of a long list: bottoms [96 * i + 80] reach 4600 at
    index 48, tops [96 * i] stay within 6200 up to index 64. *)
Example getVisibleRange_long_list :
  getVisibleRange hundred_estimated 5000 800 = {| start := 47; end_ := 66 |}.
Proof. vm_compute. reflexivity. Qed.

(** Scrolled past the end of the table no bottom edge reaches the band:
    the first search ends at the length and the window is the last
    message. *)
Example getVisibleRange_past_the_end :
  getVisibleRange hundred_estimated 20000 800 = {| start := 99; end_ := 100 |}.
Proof. vm_compute. reflexivity. Qed.

(** The first render of three unmeasured messages caches their heights
    and arms the recalculation timer. *)
Example renderVisibleMessages_first_render :
  let s := renderVisibleMessages example_dom three_estimated in
  messageHeights s !! "m1" = Some 80
  /\ messageHeights s !! "m2" = Some 80
  /\ messageHeights s !! "m3" = Some 80
  /\ heightRecalcTimeout s = true
  /\ messageOffsets s = [0; 96; 192].
Proof. repeat split; vm_compute; reflexivity. Qed.

(** An element that is not laid out measures 0 and is not cached. *)
Example renderVisibleMessages_unlaid :
  let dom := {| scrollTop := 0; clientHeight := 200; messagesContainer := true;
                minimap := None; offsetHeight := fun _ => 0;
                elementId := fun id => id |} in
  renderVisibleMessages dom three_estimated = three_estimated.
Proof. vm_compute. reflexivity. Qed.

(** Loading a session in newest-first order reverses the messages. *)
Example loadSession_reverses :
  msg_id <$> allMessages (loadSession three_messages example_dom initial_state)
  = ["m3"; "m2"; "m1"].
Proof. vm_compute. reflexivity. Qed.

(** ** The theorems at the example states *)

Lemma three_estimated_positive : cache_positive (messageHeights three_estimated).
Proof.
  unfold three_estimated. rewrite messageHeights_calculateOffsets.
  apply cache_positive_empty.
Qed.

Lemma measured_positive id height s :
  0 < height ->
  cache_positive (messageHeights s) ->
  cache_positive (messageHeights (measured id height s)).
Proof.
  intros Hh Hpos. rewrite (proj2 (measured_fields id height s)).
  by apply cache_positive_insert.
Qed.

Lemma second_measured_positive :
  cache_positive (messageHeights second_measured).
Proof. apply measured_positive; [lia | apply three_estimated_positive]. Qed.

Lemma three_rendered_positive : cache_positive (messageHeights three_rendered).
Proof.
  unfold three_rendered. cbn [messageHeights set_visibleRange].
  repeat (apply measured_positive; [lia|]). apply three_estimated_positive.
Qed.

Lemma second_measured_recomputed : table_recomputed second_measured.
Proof. apply table_recomputed_calculateOffsets. Qed.

Lemma calculateOffsets_spec_witness :
  cache_positive (messageHeights second_measured)
  /\ messageOffsets (calculateOffsets second_measured) !! 0%nat = Some 0
  /\ (exists a, last (messageOffsets (calculateOffsets second_measured)) = Some a
             /\ totalHeight (calculateOffsets second_measured) = a + 80)
  /\ 0 <= totalHeight (calculateOffsets second_measured).
Proof.
  split; [apply second_measured_positive|].
  destruct (calculateOffsets_spec second_measured second_measured_positive)
    as (_ & H0 & _ & Hlast & _ & Hnonneg).
  split; [apply H0; vm_compute; discriminate|].
  split; [|exact Hnonneg].
  destruct (Hlast (message "m3") eq_refl) as (a & Ha & Ht & _).
  exists a. split; [exact Ha | exact Ht].
Defined.

Lemma getVisibleRange_covers_viewport_witness :
  band_in_viewport second_measured 100 50 1
  /\ start (getVisibleRange second_measured 100 50) <= 1
     < end_ (getVisibleRange second_measured 100 50).
Proof.
  assert (band_in_viewport second_measured 100 50 1) as Hband
    by (split; vm_compute; discriminate).
  split; [exact Hband|].
  apply (getVisibleRange_covers_viewport second_measured 100 50 1
           second_measured_recomputed second_measured_positive);
    [vm_compute; lia | exact Hband].
Defined.

Lemma getVisibleRange_first_last_witness :
  getVisibleRange second_measured 600 50 = {| start := 1; end_ := 3 |}.
Proof.
  apply (proj2 (getVisibleRange_first_last second_measured 600 50)
           second_measured_recomputed second_measured_positive
           ltac:(vm_compute; discriminate) 2%nat 2%nat).
  - split; [vm_compute; lia|]. split; [vm_compute; discriminate|].
    intros [|[|j]] Hj; [| |lia]; vm_compute; intros H; by apply H.
  - split; [vm_compute; lia|]. split; [vm_compute; discriminate|].
    intros j Hj. vm_compute in Hj. lia.
Defined.

Lemma getVisibleRange_well_formed_witness :
  start (getVisibleRange three_estimated 0 200)
  < end_ (getVisibleRange three_estimated 0 200).
Proof.
  apply (getVisibleRange_well_formed three_estimated 0 200).
  vm_compute. discriminate.
Defined.

Lemma selectMessage_scroll_witness :
  selectedMessageIndex (selectMessage 5 example_dom three_estimated).1 = 2
  /\ (selectMessage 5 example_dom three_estimated).2 = Some (inject_Z 92)
  /\ (selectMessage 0 example_dom three_estimated).2 = None.
Proof.
  assert (allMessages three_estimated <> []) as Hne
    by (vm_compute; discriminate).
  destruct (selectMessage_scroll 5 example_dom three_estimated Hne
              three_estimated_positive) as (_ & _ & Hsel & _ & Hout).
  destruct (selectMessage_scroll 0 example_dom three_estimated Hne
              three_estimated_positive) as (_ & _ & _ & Hin & _).
  split; [exact Hsel|]. split.
  - apply Hout. intros [_ H]. vm_compute in H. by apply H.
  - apply Hin. split; vm_compute; discriminate.
Defined.

(** Where the parser hands the ids of the range back as they were
    written, the heights cached for the messages of the range are the
    heights the measuring loop finds: a render of a range whose messages
    all have their measured height in the cache writes nothing and
    schedules nothing. *)
Lemma renderVisibleMessages_measured_again_plain (dom : Dom) (s : State) :
  (forall i m, render_start s <= Z.of_nat i < render_end s ->
     allMessages s !! i = Some m ->
     elementId dom (msg_id m) = msg_id m
     /\ messageHeights s !! msg_id m = Some (offsetHeight dom i)) ->
  measure_rendered
    (rendered_elements dom (allMessages s) (render_start s) (render_end s))
    (messageHeights s)
  = (messageHeights s, false)
  /\ renderVisibleMessages dom s = s.
Proof.
  intros Hsame. apply renderVisibleMessages_measured_again.
  intros i m Hi Hm. destruct (Hsame i m Hi Hm) as [-> Hh]. exact Hh.
Qed.

Example renderVisibleMessages_measured_again_rendered :
  renderVisibleMessages example_dom three_rendered = three_rendered.
Proof.
  apply (renderVisibleMessages_measured_again example_dom three_rendered).
  intros [|[|[|i]]] m _ Hm; vm_compute in Hm; [| | |discriminate Hm];
    injection Hm as <-; vm_compute; reflexivity.
Qed.


Lemma handleMinimapClick_target_witness :
  (handleMinimapClick 300 0 example_dom three_estimated).2
  = Some (Qmax 0 ((300 - 0) / (600 / inject_Z (Z.max 272 1)) - 200 / 2)).
Proof.
  apply (handleMinimapClick_target 300 0 example_dom three_estimated 600
           eq_refl eq_refl).
Defined.

Lemma height_cache_positive_witness :
  cache_positive
    (messageHeights (loadSession three_messages example_dom initial_state)).
Proof.
  apply (proj1 height_cache_positive).
  apply (reachable_step initial_state); [apply reachable_initial|].
  apply step_loadSession.
Defined.

Lemma navigateMessages_unselected_witness :
  selectedMessageIndex (navigateMessages 1 example_dom three_estimated).1 = 0
  /\ selectedMessageIndex (navigateMessages (-1) example_dom three_estimated).1
     = 2.
Proof.
  assert (allMessages three_estimated <> []) as Hne
    by (vm_compute; discriminate).
  split.
  - apply (proj2 (navigateMessages_unselected 1 example_dom three_estimated)
             Hne eq_refl). lia.
  - apply (proj2 (navigateMessages_unselected (-1) example_dom three_estimated)
             Hne eq_refl). lia.
Defined.

(** * Further properties of the code *)

(** ** Recomputing the table *)

Lemma calculateOffsets_table_for s :
  calculateOffsets s
  = set_offsets (table_for (messageHeights s) (allMessages s)).1
                (table_for (messageHeights s) (allMessages s)).2 s.
Proof.
  unfold calculateOffsets, table_for.
  destruct (allMessages s); [done|]. by destruct (offsets_loop _ _ _ _).
Qed.

(** X1. Recomputing is a function of the sequence and the cache alone:
    two states with the same sequence and cache get the same table and
    total height, whatever their tables were; in particular recomputing
    twice is recomputing once. *)
Theorem calculateOffsets_pure (s1 s2 : State) :
  allMessages s1 = allMessages s2 ->
  messageHeights s1 = messageHeights s2 ->
  messageOffsets (calculateOffsets s1) = messageOffsets (calculateOffsets s2)
  /\ totalHeight (calculateOffsets s1) = totalHeight (calculateOffsets s2)
  /\ calculateOffsets (calculateOffsets s1) = calculateOffsets s1.
Proof.
  intros Hm Hh. rewrite (calculateOffsets_table_for (calculateOffsets s1)).
  rewrite !calculateOffsets_table_for. simpl. by rewrite Hm, Hh.
Qed.

Lemma calculateOffsets_pure_witness :
  messageOffsets (calculateOffsets three_rendered)
  = messageOffsets
      (calculateOffsets (set_offsets [7; 8] 9 three_rendered)).
Proof.
  apply (calculateOffsets_pure three_rendered
           (set_offsets [7; 8] 9 three_rendered) eq_refl eq_refl).
Defined.

(** X2. In a recomputed table the bands of two messages never overlap:
    a later message starts at least one gap below the bottom of an
    earlier one, and no offset is negative. *)
Theorem calculateOffsets_bands_disjoint (s : State) (i j : nat)
    (m : Message) (a b : Z) :
  cache_positive (messageHeights s) ->
  (i < j)%nat ->
  allMessages s !! i = Some m ->
  messageOffsets (calculateOffsets s) !! i = Some a ->
  messageOffsets (calculateOffsets s) !! j = Some b ->
  0 <= a /\ a + cached_or_estimate (messageHeights s) m + GAP <= b.
Proof.
  intros Hpos Hij Hm Ha Hb. rewrite calculateOffsets_table in Ha, Hb.
  split; [by apply offsets_loop_lower in Ha|].
  rewrite <- heightOf_cached by done.
  by apply (offsets_loop_mono (messageHeights s) (allMessages s) 0 i j).
Qed.

Lemma calculateOffsets_bands_disjoint_witness :
  0 <= 0 /\ 0 + cached_or_estimate (messageHeights second_measured)
                  (message "m1") + GAP <= 152.
Proof.
  apply (calculateOffsets_bands_disjoint second_measured 0 2 (message "m1")
           0 152 second_measured_positive);
    [lia | reflexivity | vm_compute; reflexivity | vm_compute; reflexivity].
Defined.

Lemma offsets_loop_estimates heights msgs offset :
  (forall m, m ∈ msgs -> heights !! msg_id m = None) ->
  (forall i, (i < length msgs)%nat ->
     (offsets_loop heights msgs offset []).1 !! i
     = Some (offset + (ESTIMATED_HEIGHT + GAP) * Z.of_nat i))
  /\ (offsets_loop heights msgs offset []).2
     = offset + (ESTIMATED_HEIGHT + GAP) * Z.of_nat (length msgs).
Proof.
  revert offset. induction msgs as [|m rest IH]; intros offset Hnone.
  - split; [simpl; lia | simpl; lia].
  - rewrite offsets_loop_cons.
    assert (heightOf heights m = ESTIMATED_HEIGHT) as Hm.
    { unfold heightOf. rewrite Hnone; [done | by left]. }
    destruct (IH (offset + (heightOf heights m + GAP))) as [Hi Hf].
    { intros m' Hin. apply Hnone. by right. }
    rewrite Hm in Hi, Hf. rewrite Hm. split.
    + intros [|i] Hlt; simpl.
      * f_equal. lia.
      * rewrite Hi by (simpl in Hlt; lia). f_equal. lia.
    + simpl snd. rewrite Hf. simpl length. lia.
Qed.

(** X3. While no message of the sequence has a cached height the table
    is the table of the estimates: message [i] is at [96 * i] and a
    non-empty sequence of [n] messages has the total height
    [96 * n - 16]. *)
Theorem calculateOffsets_estimates (s : State) :
  (forall m, m ∈ allMessages s -> messageHeights s !! msg_id m = None) ->
  (forall i, (i < length (allMessages s))%nat ->
     messageOffsets (calculateOffsets s) !! i = Some (96 * Z.of_nat i))
  /\ (allMessages s <> [] ->
      totalHeight (calculateOffsets s)
      = 96 * Z.of_nat (length (allMessages s)) - 16).
Proof.
  intros Hnone.
  destruct (offsets_loop_estimates (messageHeights s) (allMessages s) 0 Hnone)
    as [Hi Hf].
  rewrite calculateOffsets_table, calculateOffsets_total. split.
  - intros i Hlt. rewrite Hi by done. f_equal.
  - intros Hne. pose proof (nonempty_length s Hne).
    destruct (allMessages s) eqn:E; [done|]. rewrite <- E in *.
    rewrite Hf. unfold ESTIMATED_HEIGHT, GAP. lia.
Qed.

Lemma calculateOffsets_estimates_witness :
  messageOffsets hundred_estimated !! 50%nat = Some 4800
  /\ totalHeight hundred_estimated = 9584.
Proof.
  destruct (calculateOffsets_estimates
              (set_allMessages (replicate 100 (message "m")) initial_state))
    as [Hi Ht].
  { intros m _. apply lookup_empty. }
  split.
  - apply (Hi 50%nat). vm_compute. lia.
  - apply Ht. vm_compute. discriminate.
Defined.

(** ** The window and the overscanned band *)

(** X4. The window is tight: on a recomputed table every message of
    the window other than its first and its last one has a band that
    meets the overscanned band
    [[max(0, scrollTop - 400), scrollTop + viewportHeight + 400]]; the
    window holds at most one extra message on each side. *)
Theorem getVisibleRange_tight (s : State) (scrollTop viewportHeight : Q)
    (j : nat) :
  table_recomputed s ->
  cache_positive (messageHeights s) ->
  let r := getVisibleRange s scrollTop viewportHeight in
  start r < Z.of_nat j ->
  Z.of_nat j + 1 < end_ r ->
  (Qmax 0 (scrollTop - BUFFER_PX) <= inject_Z (bottom_edge s j))%Q
  /\ (inject_Z (top_edge s j) <= scrollTop + viewportHeight + BUFFER_PX)%Q.
Proof.
  intros Htable Hpos r Hstart Hend. subst r.
  destruct (decide (allMessages s = [])) as [E|Hne].
  { unfold getVisibleRange in Hstart, Hend. rewrite E in Hstart, Hend.
    simpl in *. lia. }
  destruct (getVisibleRange_searched s Htable Hpos scrollTop viewportHeight Hne)
    as (lo & hi & Hr & Hlo & Hhi & _ & Hfrom & Hupto & _).
  rewrite Hr in Hstart, Hend. simpl in Hstart, Hend.
  split; [apply Hfrom | apply Hupto]; lia.
Qed.

Lemma getVisibleRange_tight_witness :
  (Qmax 0 (5000 - BUFFER_PX) <= inject_Z (bottom_edge hundred_estimated 50))%Q
  /\ (inject_Z (top_edge hundred_estimated 50) <= 5000 + 800 + BUFFER_PX)%Q.
Proof.
  apply (getVisibleRange_tight hundred_estimated 5000 800 50).
  - apply table_recomputed_calculateOffsets.
  - unfold hundred_estimated. rewrite messageHeights_calculateOffsets.
    apply cache_positive_empty.
  - vm_compute. reflexivity.
  - vm_compute. reflexivity.
Defined.

(** X5. A list that fits the overscanned band is rendered whole: on a
    recomputed table, scrolled no further than the buffer and with the
    top of the last message inside the band, the window is
    [[0, length)]. *)
Theorem getVisibleRange_short_list_whole (s : State)
    (scrollTop viewportHeight : Q) :
  table_recomputed s ->
  cache_positive (messageHeights s) ->
  allMessages s <> [] ->
  (scrollTop <= BUFFER_PX)%Q ->
  (inject_Z (top_edge s (length (allMessages s) - 1))
   <= scrollTop + viewportHeight + BUFFER_PX)%Q ->
  getVisibleRange s scrollTop viewportHeight
  = {| start := 0; end_ := Z.of_nat (length (allMessages s)) |}.
Proof.
  intros Htable Hpos Hne Htop Hlast.
  pose proof (nonempty_length s Hne) as Hn.
  destruct (getVisibleRange_searched s Htable Hpos scrollTop viewportHeight Hne)
    as (lo & hi & -> & Hlo & Hhi & Hbelow & _ & _ & Habove).
  assert (lo = 0)%nat as ->.
  { destruct lo as [|lo]; [done|]. exfalso.
    specialize (Hbelow 0%nat ltac:(lia)).
    pose proof (edges_order s Htable Hpos 0%nat ltac:(lia)) as [H0 Hb].
    assert (0 < bottom_edge s 0) as Hb0 by lia.
    apply inject_Z_pos in Hb0. unfold BUFFER_PX in *.
    apply Q.max_lt_iff in Hbelow as [Hlt|Hlt]; lra. }
  assert (hi = length (allMessages s)) as ->; [|f_equal; lia].
  destruct (decide (hi = length (allMessages s))) as [|Hn']; [done|].
  exfalso.
  specialize (Habove (length (allMessages s) - 1)%nat ltac:(lia)). lra.
Qed.

Lemma getVisibleRange_short_list_whole_witness :
  getVisibleRange second_measured 0 200 = {| start := 0; end_ := 3 |}.
Proof.
  apply (getVisibleRange_short_list_whole second_measured 0 200
           second_measured_recomputed second_measured_positive);
    vm_compute; discriminate.
Defined.

(** X6. Scrolling down never moves the window up: on a recomputed
    table, for a fixed viewport height, both ends of the window grow
    with the scroll position. *)
Theorem getVisibleRange_monotone (s : State)
    (scrollTop1 scrollTop2 viewportHeight : Q) :
  table_recomputed s ->
  cache_positive (messageHeights s) ->
  (scrollTop1 <= scrollTop2)%Q ->
  start (getVisibleRange s scrollTop1 viewportHeight)
  <= start (getVisibleRange s scrollTop2 viewportHeight)
  /\ end_ (getVisibleRange s scrollTop1 viewportHeight)
     <= end_ (getVisibleRange s scrollTop2 viewportHeight).
Proof.
  intros Htable Hpos Hle.
  destruct (decide (allMessages s = [])) as [E|Hne].
  { unfold getVisibleRange. rewrite E. simpl. lia. }
  destruct (getVisibleRange_searched s Htable Hpos scrollTop1 viewportHeight Hne)
    as (lo1 & hi1 & -> & Hlo1 & Hhi1 & Hbelow1 & _ & Hupto1 & _).
  destruct (getVisibleRange_searched s Htable Hpos scrollTop2 viewportHeight Hne)
    as (lo2 & hi2 & -> & Hlo2 & Hhi2 & _ & Hfrom2 & _ & Habove2).
  simpl.
  assert (lo1 <= lo2)%nat as Hlo.
  { destruct (decide (lo1 <= lo2)%nat) as [|Hn]; [done|]. exfalso.
    specialize (Hbelow1 lo2 ltac:(lia)). specialize (Hfrom2 lo2 ltac:(lia)).
    assert (Qmax 0 (scrollTop1 - BUFFER_PX)
            <= Qmax 0 (scrollTop2 - BUFFER_PX))%Q as Hmax
      by (apply Q.max_le_compat_l; lra).
    lra. }
  assert (hi1 <= hi2)%nat as Hhi.
  { destruct (decide (hi1 <= hi2)%nat) as [|Hn]; [done|]. exfalso.
    specialize (Hupto1 hi2 ltac:(lia)). specialize (Habove2 hi2 ltac:(lia)).
    lra. }
  lia.
Qed.

Lemma getVisibleRange_monotone_witness :
  start (getVisibleRange hundred_estimated 1000 800)
  <= start (getVisibleRange hundred_estimated 5000 800)
  /\ end_ (getVisibleRange hundred_estimated 1000 800)
     <= end_ (getVisibleRange hundred_estimated 5000 800).
Proof.
  apply (getVisibleRange_monotone hundred_estimated 1000 5000 800).
  - apply table_recomputed_calculateOffsets.
  - unfold hundred_estimated. rewrite messageHeights_calculateOffsets.
    apply cache_positive_empty.
  - vm_compute. discriminate.
Defined.

(** ** The measuring step of the render *)

Lemma measure_element_flag acc el :
  acc.2 = true -> (measure_element acc el).2 = true.
Proof.
  destruct acc as [h c], el as [id height]. simpl. intros ->.
  unfold measure_element. by destruct (_ && _).
Qed.

Lemma measure_fold_flag els acc :
  acc.2 = true -> (fold_left measure_element els acc).2 = true.
Proof.
  revert acc. induction els as [|el els IH]; intros acc Hacc; [done|].
  simpl. apply IH. by apply measure_element_flag.
Qed.

(** A pass that leaves the flag false has written nothing. *)
Lemma measure_fold_unchanged els acc :
  (fold_left measure_element els acc).2 = false ->
  (fold_left measure_element els acc).1 = acc.1.
Proof.
  revert acc. induction els as [|el els IH]; intros acc Hflag; [done|].
  simpl in *. destruct el as [id height].
  unfold measure_element in *.
  destruct ((0 <? height) && negb (bool_decide (acc.1 !! id = Some height))).
  - by rewrite measure_fold_flag in Hflag.
  - by apply IH.
Qed.

Lemma measure_fold_other els acc id :
  id ∉ els.*1 ->
  (fold_left measure_element els acc).1 !! id = acc.1 !! id.
Proof.
  revert acc. induction els as [|[id' height] els IH]; intros acc Hnot; [done|].
  simpl in Hnot. apply not_elem_of_cons in Hnot as [Hne Hnot].
  simpl. rewrite IH by done. unfold measure_element.
  destruct (_ && _); [|done]. simpl. by rewrite lookup_insert_ne.
Qed.

Lemma measure_fold_keeps els acc id height :
  (forall el, el ∈ els -> el.1 = id -> el.2 = height) ->
  acc.1 !! id = Some height ->
  (fold_left measure_element els acc).1 !! id = Some height.
Proof.
  revert acc. induction els as [|[id' height'] els IH]; intros acc Hsame Hacc;
    [done|].
  simpl. apply IH.
  - intros el Hel. apply Hsame. by right.
  - unfold measure_element. destruct (_ && _) eqn:Hw; [|done]. simpl.
    destruct (decide (id' = id)) as [->|Hne].
    + rewrite lookup_insert_eq. f_equal.
      apply (Hsame (id, height')); [by left | done].
    + by rewrite lookup_insert_ne.
Qed.

Lemma measure_fold_stores els acc id height :
  (id, height) ∈ els ->
  0 < height ->
  (forall el, el ∈ els -> el.1 = id -> el.2 = height) ->
  (fold_left measure_element els acc).1 !! id = Some height.
Proof.
  revert acc. induction els as [|[id' height'] els IH];
    intros acc Hin Hpos Hsame; [by apply elem_of_nil in Hin|].
  apply elem_of_cons in Hin as [Heq|Hin].
  - injection Heq as <- <-. simpl. apply measure_fold_keeps.
    + intros el Hel. apply Hsame. by right.
    + unfold measure_element. destruct (Z.ltb_spec 0 height); [|lia]. simpl.
      case_bool_decide; simpl; [done|]. by rewrite lookup_insert_eq.
  - simpl. apply IH; [done | done |]. intros el Hel. apply Hsame. by right.
Qed.

Lemma measure_rendered_noop els (heights : gmap string Z) :
  Forall (fun el => el.2 <= 0 \/ heights !! el.1 = Some el.2) els ->
  measure_rendered els heights = (heights, false).
Proof.
  unfold measure_rendered. induction 1 as [|[id height] els Hel _ IH]; [done|].
  cbn [fold_left]. replace (measure_element (heights, false) (id, height))
    with (heights, false); [done|].
  unfold measure_element. simpl in *. destruct Hel as [Hle|Hsame].
  - by destruct (Z.ltb_spec 0 height); [lia|].
  - rewrite bool_decide_eq_true_2 by done. by rewrite andb_false_r.
Qed.

Lemma rendered_elements_elem dom msgs start end_ i m :
  0 <= start ->
  start <= Z.of_nat i < end_ ->
  msgs !! i = Some m ->
  (elementId dom (msg_id m), offsetHeight dom i)
  ∈ rendered_elements dom msgs start end_.
Proof.
  intros Hstart Hi Hm. unfold rendered_elements. apply list_elem_of_omap.
  exists i. split; [|by rewrite Hm].
  apply list_elem_of_In, in_seq. lia.
Qed.

Lemma render_bounds s :
  0 <= render_start s
  /\ (render_start s < render_end s ->
      render_end s <= Z.of_nat (length (allMessages s))
      /\ allMessages s <> []).
Proof.
  unfold render_end, render_start. split; [lia|]. intros H.
  split; [lia|]. intros E. rewrite E in H. simpl in H. lia.
Qed.

(** The render past its early returns. *)
Lemma renderVisibleMessages_measured dom s :
  messagesContainer dom = true ->
  render_start s < render_end s ->
  renderVisibleMessages dom s
  = let r := measure_rendered
               (rendered_elements dom (allMessages s) (render_start s)
                  (render_end s)) (messageHeights s) in
    if r.2 then scheduleHeightRecalc (set_messageHeights r.1 s)
    else set_messageHeights r.1 s.
Proof.
  intros Hc Hlt. unfold renderVisibleMessages. rewrite Hc. simpl negb.
  cbv iota. destruct (Z.leb_spec (render_end s) (render_start s)); [lia|].
  destruct (render_bounds s) as [_ Hb]. destruct (Hb Hlt) as [_ Hne].
  simpl. rewrite bool_decide_eq_false_2 by done.
  by destruct (measure_rendered _ _).
Qed.

Lemma renderVisibleMessages_skipped dom s :
  messagesContainer dom = false \/ render_end s <= render_start s ->
  renderVisibleMessages dom s = s.
Proof.
  intros [Hc|Hle]; unfold renderVisibleMessages.
  - by rewrite Hc.
  - destruct (negb _); [done|].
    by destruct (Z.leb_spec (render_end s) (render_start s)); [|lia].
Qed.

Lemma renderVisibleMessages_cases dom s :
  renderVisibleMessages dom s = s
  \/ messagesContainer dom = true /\ render_start s < render_end s.
Proof.
  destruct (messagesContainer dom) eqn:Hc;
    [|left; apply renderVisibleMessages_skipped; by left].
  destruct (Z.lt_ge_cases (render_start s) (render_end s));
    [by right | left; apply renderVisibleMessages_skipped; by right].
Qed.

Lemma scheduleHeightRecalc_fields s :
  allMessages (scheduleHeightRecalc s) = allMessages s
  /\ messageOffsets (scheduleHeightRecalc s) = messageOffsets s
  /\ totalHeight (scheduleHeightRecalc s) = totalHeight s
  /\ visibleRange (scheduleHeightRecalc s) = visibleRange s
  /\ selectedMessageIndex (scheduleHeightRecalc s) = selectedMessageIndex s
  /\ currentSessionData (scheduleHeightRecalc s) = currentSessionData s
  /\ sortNewestFirst (scheduleHeightRecalc s) = sortNewestFirst s
  /\ heightRecalcTimeout (scheduleHeightRecalc s) = true.
Proof.
  unfold scheduleHeightRecalc.
  by destruct (heightRecalcTimeout s) eqn:E.
Qed.

Lemma renderVisibleMessages_fields dom s :
  allMessages (renderVisibleMessages dom s) = allMessages s
  /\ messageOffsets (renderVisibleMessages dom s) = messageOffsets s
  /\ totalHeight (renderVisibleMessages dom s) = totalHeight s
  /\ visibleRange (renderVisibleMessages dom s) = visibleRange s
  /\ selectedMessageIndex (renderVisibleMessages dom s) = selectedMessageIndex s
  /\ currentSessionData (renderVisibleMessages dom s) = currentSessionData s
  /\ sortNewestFirst (renderVisibleMessages dom s) = sortNewestFirst s.
Proof.
  destruct (renderVisibleMessages_cases dom s) as [->|[Hc Hlt]]; [done|].
  rewrite renderVisibleMessages_measured by done. cbv zeta.
  destruct (measure_rendered _ _) as [h c]. simpl.
  destruct c; [|done].
  by pose proof (scheduleHeightRecalc_fields (set_messageHeights h s))
    as (-> & -> & -> & -> & -> & -> & -> & _).
Qed.

(** X7. A render never recomputes: it leaves the sequence, the offset
    table, the total height, the window and the selection as they are;
    it never cancels a pending recalculation, and whenever it changes
    the height cache a recalculation is pending afterwards. *)
Theorem renderVisibleMessages_defers (dom : Dom) (s : State) :
  let s' := renderVisibleMessages dom s in
  allMessages s' = allMessages s
  /\ messageOffsets s' = messageOffsets s
  /\ totalHeight s' = totalHeight s
  /\ visibleRange s' = visibleRange s
  /\ selectedMessageIndex s' = selectedMessageIndex s
  /\ (heightRecalcTimeout s = true -> heightRecalcTimeout s' = true)
  /\ (messageHeights s' <> messageHeights s -> heightRecalcTimeout s' = true).
Proof.
  intros s'. subst s'.
  pose proof (renderVisibleMessages_fields dom s) as (H1 & H2 & H3 & H4 & H5 & _).
  repeat (split; [done|]).
  destruct (renderVisibleMessages_cases dom s) as [->|[Hc Hlt]]; [done|].
  rewrite renderVisibleMessages_measured by done. cbv zeta.
  pose proof (measure_fold_unchanged
                (rendered_elements dom (allMessages s) (render_start s)
                   (render_end s)) (messageHeights s, false)) as Hun.
  fold (measure_rendered
          (rendered_elements dom (allMessages s) (render_start s)
             (render_end s)) (messageHeights s)) in Hun.
  destruct (measure_rendered _ _) as [h c]. simpl in *.
  destruct c.
  - split; intros _; apply scheduleHeightRecalc_fields.
  - split; [done|]. intros Hne. by rewrite Hun in Hne.
Qed.

Lemma renderVisibleMessages_defers_witness :
  heightRecalcTimeout (renderVisibleMessages example_dom three_estimated) = true.
Proof.
  apply (renderVisibleMessages_defers example_dom three_estimated).
  intros H. apply (f_equal (fun h => h !! "m1")) in H.
  vm_compute in H. discriminate H.
Defined.

Lemma measure_fold_untouched els acc id :
  (forall el, el ∈ els -> el.1 = id -> el.2 <= 0) ->
  (fold_left measure_element els acc).1 !! id = acc.1 !! id.
Proof.
  revert acc. induction els as [|[id' height] els IH]; intros acc Hle; [done|].
  simpl. rewrite IH by (intros el Hel; apply Hle; by right).
  unfold measure_element. destruct (Z.ltb_spec 0 height); [|done]. simpl.
  destruct (negb _); [|done]. simpl.
  destruct (decide (id' = id)) as [->|Hne]; [|by rewrite lookup_insert_ne].
  specialize (Hle (id, height) ltac:(by left) eq_refl). simpl in Hle. lia.
Qed.

Lemma unique_keys_index {K} (key : Message -> K) (msgs : list Message)
    i j m m' :
  NoDup (key <$> msgs) ->
  msgs !! i = Some m -> msgs !! j = Some m' ->
  key m = key m' -> i = j.
Proof.
  intros Hnd Hi Hj Hid.
  apply (NoDup_lookup _ i j (key m) Hnd); rewrite list_lookup_fmap.
  - by rewrite Hi.
  - rewrite Hj. simpl. by rewrite Hid.
Qed.

(** With unique element ids the elements of a render carry one height
    per id. *)
Lemma rendered_elements_unique dom msgs start end_ i m el :
  NoDup ((fun m => elementId dom (msg_id m)) <$> msgs) ->
  0 <= start ->
  msgs !! i = Some m ->
  el ∈ rendered_elements dom msgs start end_ ->
  el.1 = elementId dom (msg_id m) -> el.2 = offsetHeight dom i.
Proof.
  intros Hnd Hstart Hm Hel Hid.
  apply rendered_elements_lookup in Hel as (j & m' & _ & _ & Hm' & ->);
    [|done].
  simpl in *.
  by rewrite (unique_keys_index _ msgs j i m' m Hnd Hm' Hm Hid).
Qed.

Lemma renderVisibleMessages_heights dom s :
  messagesContainer dom = true ->
  render_start s < render_end s ->
  messageHeights (renderVisibleMessages dom s)
  = (measure_rendered
       (rendered_elements dom (allMessages s) (render_start s) (render_end s))
       (messageHeights s)).1.
Proof.
  intros Hc Hlt. rewrite renderVisibleMessages_measured by done. cbv zeta.
  destruct (measure_rendered _ _) as [h c]. simpl.
  destruct c; [apply messageHeights_scheduleHeightRecalc | done].
Qed.

(** X8. With unique element ids a render caches what it measures, under
    the [id] read back from the element: a message of the rendered range
    whose element is laid out ([offsetHeight > 0]) has its height in the
    cache afterwards, and where the parser leaves the message id as it
    is, that is the height the offset table will use for the message;
    the entry of a message whose element measures 0, and the entry of
    any message outside the range, is left as it was. *)
Theorem renderVisibleMessages_caches (dom : Dom) (s : State) (i : nat)
    (m : Message) :
  messagesContainer dom = true ->
  NoDup ((fun m => elementId dom (msg_id m)) <$> allMessages s) ->
  allMessages s !! i = Some m ->
  let s' := renderVisibleMessages dom s in
  let key := elementId dom (msg_id m) in
  let rendered := render_start s <= Z.of_nat i < render_end s in
  (rendered -> 0 < offsetHeight dom i ->
   messageHeights s' !! key = Some (offsetHeight dom i)
   /\ (key = msg_id m -> heightOf (messageHeights s') m = offsetHeight dom i))
  /\ (rendered -> offsetHeight dom i <= 0 ->
      messageHeights s' !! key = messageHeights s !! key)
  /\ (~ rendered ->
      messageHeights s' !! key = messageHeights s !! key).
Proof.
  intros Hc Hnd Hm s' key rendered. subst s' key rendered.
  destruct (render_bounds s) as [Hstart _].
  split; [|split].
  - intros Hi Hpos.
    assert (messageHeights (renderVisibleMessages dom s)
              !! elementId dom (msg_id m) = Some (offsetHeight dom i)) as Hkey.
    { rewrite renderVisibleMessages_heights by (done || lia).
      apply measure_fold_stores; [|done|].
      - by apply rendered_elements_elem.
      - intros el Hel Hid.
        by eapply (rendered_elements_unique dom _ _ _ i m). }
    split; [done|]. intros Heq. unfold heightOf. rewrite <- Heq, Hkey.
    by destruct (Z.eqb_spec (offsetHeight dom i) 0); [lia|].
  - intros Hi Hle. rewrite renderVisibleMessages_heights by (done || lia).
    apply measure_fold_untouched. intros el Hel Hid.
    by rewrite (rendered_elements_unique dom _ _ _ i m el Hnd Hstart Hm Hel Hid).
  - intros Hout.
    destruct (renderVisibleMessages_cases dom s) as [->|[_ Hlt]]; [done|].
    rewrite renderVisibleMessages_heights by done.
    apply measure_fold_untouched. intros el Hel Hid. exfalso.
    apply rendered_elements_lookup in Hel as (j & m' & Hlo & Hhi & Hm' & ->);
      [|done].
    simpl in Hid.
    rewrite (unique_keys_index _ _ j i m' m Hnd Hm' Hm Hid) in Hlo, Hhi. lia.
Qed.

Lemma three_estimated_unique : NoDup (msg_id <$> allMessages three_estimated).
Proof.
  change (NoDup ["m1"; "m2"; "m3"]).
  repeat (apply NoDup_cons; split;
          [rewrite ?not_elem_of_cons; repeat split;
           try discriminate; apply not_elem_of_nil|]).
  apply NoDup_nil_2.
Qed.

Lemma renderVisibleMessages_caches_witness :
  messageHeights (renderVisibleMessages example_dom three_estimated)
    !! "m2" = Some 80
  /\ heightOf (messageHeights (renderVisibleMessages example_dom three_estimated))
       (message "m2") = 80.
Proof.
  assert (render_start three_estimated <= Z.of_nat 1
          < render_end three_estimated) as Hin
    by (vm_compute; split; [discriminate | reflexivity]).
  assert (0 < offsetHeight example_dom 1) as Hpos by reflexivity.
  pose proof (proj1 (renderVisibleMessages_caches example_dom three_estimated 1
                       (message "m2") eq_refl three_estimated_unique eq_refl)
                Hin Hpos) as H.
  exact (conj (proj1 H) (proj2 H eq_refl)).
Defined.

(** The cache after a measuring pass is the cache after the pass that
    stores every positive height without looking: storing a height that
    is there already changes nothing. *)
Lemma measure_fold_remeasure els acc :
  (fold_left measure_element els acc).1
  = fold_left remeasure_element els acc.1.
Proof.
  revert acc. induction els as [|[id height] els IH]; intros acc; [done|].
  simpl. rewrite IH. f_equal. unfold measure_element.
  destruct (Z.ltb_spec 0 height); [|done]. simpl.
  case_bool_decide as Hsame; simpl; [|done].
  by rewrite insert_id.
Qed.

Lemma remeasure_absorb els (heights : gmap string Z) id v :
  <[id := v]> (fold_left remeasure_element els (<[id := v]> heights))
  = <[id := v]> (fold_left remeasure_element els heights).
Proof.
  revert heights. induction els as [|[id' height] els IH]; intros heights.
  - simpl. by rewrite insert_insert_eq.
  - simpl. destruct (0 <? height); [|apply IH].
    destruct (decide (id' = id)) as [->|Hne].
    + by rewrite insert_insert_eq.
    + rewrite (insert_insert_ne heights id' id) by done. apply IH.
Qed.

(** A second pass over the same elements leaves the cache of the first
    pass. *)
Lemma remeasure_twice els (heights : gmap string Z) :
  fold_left remeasure_element els (fold_left remeasure_element els heights)
  = fold_left remeasure_element els heights.
Proof.
  induction els as [|[id height] els IH] using rev_ind; [done|].
  rewrite !fold_left_app. simpl.
  destruct (0 <? height); [|apply IH].
  by rewrite remeasure_absorb, IH.
Qed.

Lemma measure_rendered_twice els (heights : gmap string Z) :
  (measure_rendered els (measure_rendered els heights).1).1
  = (measure_rendered els heights).1
  /\ ((measure_rendered els (measure_rendered els heights).1).2 = true ->
      (measure_rendered els heights).2 = true).
Proof.
  unfold measure_rendered. split.
  - rewrite !measure_fold_remeasure. simpl. apply remeasure_twice.
  - intros Hsecond.
    destruct (fold_left measure_element els (heights, false)).2 eqn:Hfirst;
      [done|].
    pose proof (measure_fold_unchanged els (heights, false) Hfirst) as Hun.
    simpl in Hun. rewrite Hun in Hsecond. congruence.
Qed.

(** X9. With unique message ids rendering is idempotent: a second
    render of the same page changes nothing, whatever the first one
    measured. *)
Theorem renderVisibleMessages_twice (dom : Dom) (s : State) :
  NoDup (msg_id <$> allMessages s) ->
  renderVisibleMessages dom (renderVisibleMessages dom s)
  = renderVisibleMessages dom s.
Proof.
  intros _.
  destruct (renderVisibleMessages_cases dom s) as [E|[Hc Hlt]];
    [by rewrite !E|].
  pose proof (renderVisibleMessages_fields dom s) as (Hm & _ & _ & Hr & _).
  pose proof (renderVisibleMessages_heights dom s Hc Hlt) as Hh.
  assert ((measure_rendered
             (rendered_elements dom (allMessages s) (render_start s)
                (render_end s)) (messageHeights s)).2 = true ->
          heightRecalcTimeout (renderVisibleMessages dom s) = true) as Harmed.
  { rewrite renderVisibleMessages_measured by done. cbv zeta.
    intros ->. apply scheduleHeightRecalc_fields. }
  set (s1 := renderVisibleMessages dom s) in *.
  assert (render_start s1 = render_start s /\ render_end s1 = render_end s)
    as [Hs He] by (unfold render_end, render_start; by rewrite Hm, Hr).
  rewrite (renderVisibleMessages_measured dom s1) by (done || lia). cbv zeta.
  rewrite Hs, He, Hm, Hh.
  set (els := rendered_elements dom (allMessages s) (render_start s)
                (render_end s)) in *.
  destruct (measure_rendered_twice els (messageHeights s)) as [Hsame Hflag].
  rewrite Hsame, <- Hh, set_messageHeights_same.
  destruct (measure_rendered els (messageHeights s1)).2 eqn:Hsecond; [|done].
  unfold scheduleHeightRecalc. rewrite Harmed; [done|].
  apply Hflag. by rewrite <- Hh.
Qed.

Lemma renderVisibleMessages_twice_witness :
  renderVisibleMessages example_dom
    (renderVisibleMessages example_dom three_estimated)
  = renderVisibleMessages example_dom three_estimated.
Proof.
  apply (renderVisibleMessages_twice example_dom three_estimated
           three_estimated_unique).
Defined.

(** ** The debounced recalculation *)

Lemma table_fresh_calculateOffsets s :
  table_fresh (messageHeights s) (calculateOffsets s).
Proof.
  unfold table_fresh. rewrite calculateOffsets_table_for.
  cbn [messageOffsets totalHeight allMessages set_offsets].
  by destruct (table_for _ _).
Qed.

Lemma table_fresh_recomputed s :
  table_fresh (messageHeights s) s <-> table_recomputed s.
Proof.
  unfold table_fresh, table_recomputed.
  rewrite calculateOffsets_table_for.
  cbn [messageOffsets totalHeight allMessages set_offsets].
  destruct (table_for _ _) as [offs total]. simpl. split.
  - by intros [= -> ->].
  - by intros [-> ->].
Qed.

Lemma same_view_refl s : same_view s s.
Proof. by repeat split. Qed.

Lemma same_view_trans s1 s2 s3 :
  same_view s1 s2 -> same_view s2 s3 -> same_view s1 s3.
Proof.
  intros (A1 & A2 & A3 & A4) (B1 & B2 & B3 & B4).
  repeat split; congruence.
Qed.

Lemma same_view_calculateOffsets s : same_view s (calculateOffsets s).
Proof. rewrite calculateOffsets_table_for. by repeat split. Qed.

Lemma renderMinimap_cases dom s :
  renderMinimap dom s = s
  \/ renderMinimap dom s = calculateOffsets s
     /\ length (messageOffsets s) <> length (allMessages s).
Proof.
  unfold renderMinimap. destruct (minimap dom); [|by left].
  repeat case_bool_decide; auto.
Qed.

Lemma same_view_renderMinimap dom s : same_view s (renderMinimap dom s).
Proof.
  destruct (renderMinimap_cases dom s) as [->|[-> _]];
    [apply same_view_refl | apply same_view_calculateOffsets].
Qed.

Lemma same_view_renderVisibleMessages dom s :
  same_view s (renderVisibleMessages dom s).
Proof.
  pose proof (renderVisibleMessages_fields dom s)
    as (H1 & _ & _ & _ & H5 & H6 & H7).
  by repeat split.
Qed.

(** [renderMinimap] leaves a table of the right length alone. *)
Lemma renderMinimap_recomputed dom s :
  table_recomputed s -> renderMinimap dom s = s.
Proof.
  intros [Ht _]. destruct (renderMinimap_cases dom s) as [E|[_ Hlen]]; [done|].
  exfalso. apply Hlen. rewrite Ht, calculateOffsets_table.
  apply offsets_loop_length.
Qed.

(** What the callback of the timer does to the fields other than the
    minimap bookkeeping. *)
Lemma heightRecalc_timeout_fields dom s :
  let s' := heightRecalc_timeout dom s in
  same_view s s'
  /\ messageHeights s' = messageHeights s
  /\ visibleRange s' = visibleRange s
  /\ heightRecalcTimeout s' = false
  /\ messageOffsets s' = messageOffsets (calculateOffsets s)
  /\ totalHeight s' = totalHeight (calculateOffsets s).
Proof.
  intros s'. subst s'. unfold heightRecalc_timeout.
  set (s1 := calculateOffsets (set_heightRecalcTimeout false s)).
  assert (s1 = set_heightRecalcTimeout false (calculateOffsets s)) as Hs1.
  { subst s1. by rewrite !calculateOffsets_table_for. }
  assert (table_recomputed s1) as Hrec
    by apply table_recomputed_calculateOffsets.
  assert (same_view s s1 /\ messageHeights s1 = messageHeights s
          /\ visibleRange s1 = visibleRange s
          /\ heightRecalcTimeout s1 = false
          /\ messageOffsets s1 = messageOffsets (calculateOffsets s)
          /\ totalHeight s1 = totalHeight (calculateOffsets s)) as H.
  { rewrite Hs1. rewrite !calculateOffsets_table_for. by repeat split. }
  clearbody s1.
  destruct (minimapClickInProgress s1);
    destruct (_ || _); try exact H.
  rewrite renderMinimap_recomputed; [exact H|].
  apply table_fresh_recomputed. apply table_fresh_recomputed in Hrec. exact Hrec.
Qed.

Lemma heightRecalc_timeout_table dom s :
  table_recomputed (heightRecalc_timeout dom s).
Proof.
  pose proof (heightRecalc_timeout_fields dom s)
    as ((_ & _ & Hm & _) & Hh & _ & _ & Ho & Htot).
  split.
  - rewrite calculateOffsets_table, Hm, Hh, Ho. apply calculateOffsets_table.
  - rewrite calculateOffsets_total, Hm, Hh, Htot. apply calculateOffsets_total.
Qed.

(** X10. The debounced callback restores consistency: after it the
    timer is cleared and the table is the recomputed table of the
    current sequence and cache, which it leaves untouched together with
    the window and the selection. *)
Theorem heightRecalc_timeout_recomputes (dom : Dom) (s : State) :
  let s' := heightRecalc_timeout dom s in
  table_recomputed s'
  /\ heightRecalcTimeout s' = false
  /\ allMessages s' = allMessages s
  /\ messageHeights s' = messageHeights s
  /\ visibleRange s' = visibleRange s
  /\ selectedMessageIndex s' = selectedMessageIndex s.
Proof.
  intros s'.
  pose proof (heightRecalc_timeout_fields dom s)
    as ((_ & _ & Hm & Hsel) & Hh & Hr & Ht & Ho & Htot).
  fold s' in Hm, Hsel, Hh, Hr, Ht, Ho, Htot.
  split; [apply heightRecalc_timeout_table | done].
Qed.

Lemma twentieth_lt (a b : Z) :
  (inject_Z a * (5 # 100) < inject_Z b)%Q <-> a < 20 * b.
Proof. unfold Qlt, Qmult, inject_Z. simpl. lia. Qed.

(** The test of the recalculation is the test for a repaint falling
    due. *)
Lemma shouldRenderMinimap_due (total : Z) (s : State) :
  Qltb (inject_Z (lastMinimapHeight s) * (5 # 100))
       (inject_Z (Z.abs (total - lastMinimapHeight s)))
  || (10 <? Z.of_nat (size (messageHeights s)) - lastMeasuredCount s) = true
  <-> repaint_due total s.
Proof.
  rewrite orb_true_iff, Qltb_lt, twentieth_lt, Z.ltb_lt. unfold repaint_due.
  lia.
Qed.

(** X11. A repaint of the minimap that falls due while a minimap click
    is in progress is deferred, not dropped: the recalculation leaves
    the paint bookkeeping alone, records the need when the repaint falls
    due (the new total height differs from the painted one by more than
    a twentieth of it, or more than ten heights were measured since) and
    keeps a need recorded before; the settle timer of the click then
    clears the click flag and, when a repaint is owed, brings the
    bookkeeping up to the current total height and cache size. *)
Theorem minimap_repaint_deferred (dom : Dom) (s : State) :
  minimapClickInProgress s = true ->
  let s1 := heightRecalc_timeout dom s in
  let s2 := minimapClick_timeout dom s1 in
  lastMinimapHeight s1 = lastMinimapHeight s
  /\ lastMeasuredCount s1 = lastMeasuredCount s
  /\ minimapClickInProgress s1 = true
  /\ (minimapNeedsRender s = true -> minimapNeedsRender s1 = true)
  /\ minimapClickInProgress s2 = false
  /\ minimapNeedsRender s2 = false
  /\ (minimapNeedsRender s1 = true ->
      lastMinimapHeight s2 = totalHeight s2
      /\ lastMeasuredCount s2 = Z.of_nat (size (messageHeights s2)))
  /\ (minimapNeedsRender s1 = false ->
      lastMinimapHeight s2 = lastMinimapHeight s
      /\ lastMeasuredCount s2 = lastMeasuredCount s)
  /\ (repaint_due (totalHeight s1) s -> minimapNeedsRender s1 = true)
  /\ (~ repaint_due (totalHeight s1) s ->
      minimapNeedsRender s1 = minimapNeedsRender s)
  /\ (repaint_due (totalHeight s1) s ->
      lastMinimapHeight s2 = totalHeight s2
      /\ lastMeasuredCount s2 = Z.of_nat (size (messageHeights s2))).
Proof.
  intros Hin s1 s2.
  pose proof (heightRecalc_timeout_fields dom s) as (_ & _ & _ & _ & _ & Htot).
  fold s1 in Htot.
  pose proof (shouldRenderMinimap_due (totalHeight (calculateOffsets s)) s)
    as Hdue.
  rewrite <- Htot in Hdue.
  assert (lastMinimapHeight s1 = lastMinimapHeight s
          /\ lastMeasuredCount s1 = lastMeasuredCount s
          /\ minimapClickInProgress s1 = true
          /\ (minimapNeedsRender s = true -> minimapNeedsRender s1 = true)
          /\ (repaint_due (totalHeight s1) s -> minimapNeedsRender s1 = true)
          /\ (~ repaint_due (totalHeight s1) s ->
              minimapNeedsRender s1 = minimapNeedsRender s))
    as (H1 & H2 & H3 & H4 & H5 & H6).
  { rewrite <- Hdue. rewrite Htot. clear Hdue Htot.
    subst s1. unfold heightRecalc_timeout.
    rewrite !calculateOffsets_table_for.
    cbn [minimapClickInProgress set_offsets set_heightRecalcTimeout
         lastMinimapHeight lastMeasuredCount messageHeights totalHeight
         minimapClickTimeout].
    rewrite Hin. destruct (_ || _); by repeat split. }
  assert (table_recomputed s1) as Hrec
    by apply heightRecalc_timeout_table.
  assert (minimapClickInProgress s2 = false
          /\ minimapNeedsRender s2 = false
          /\ (minimapNeedsRender s1 = true ->
              lastMinimapHeight s2 = totalHeight s2
              /\ lastMeasuredCount s2 = Z.of_nat (size (messageHeights s2)))
          /\ (minimapNeedsRender s1 = false ->
              lastMinimapHeight s2 = lastMinimapHeight s
              /\ lastMeasuredCount s2 = lastMeasuredCount s))
    as (H7 & H8 & H9 & H10).
  { subst s2. unfold minimapClick_timeout.
    destruct (minimapNeedsRender s1) eqn:Hneeds.
    - rewrite renderMinimap_recomputed.
      + by repeat split.
      + apply table_fresh_recomputed. apply table_fresh_recomputed in Hrec.
        exact Hrec.
    - repeat split; try done; simpl; congruence. }
  do 10 (split; [done|]). intros Hd. apply H9, H5, Hd.
Qed.

Lemma minimap_repaint_deferred_witness :
  let s1 := heightRecalc_timeout example_dom three_clicked in
  let s2 := minimapClick_timeout example_dom s1 in
  lastMinimapHeight s1 = 0
  /\ minimapNeedsRender three_clicked = false
  /\ minimapNeedsRender s1 = true
  /\ lastMinimapHeight s2 = totalHeight s2.
Proof.
  assert (repaint_due
            (totalHeight (heightRecalc_timeout example_dom three_clicked))
            three_clicked) as Hdue by (left; vm_compute; reflexivity).
  destruct (minimap_repaint_deferred example_dom three_clicked eq_refl)
    as (H1 & _ & _ & _ & _ & _ & _ & _ & H9 & _ & H11).
  exact (conj H1 (conj eq_refl (conj (H9 Hdue) (proj1 (H11 Hdue))))).
Defined.

(** ** Loading a session *)

Lemma sequence_of_length newest messages :
  length (sequence_of newest messages) = length messages.
Proof. unfold sequence_of. destruct newest; [apply length_reverse | done]. Qed.

Lemma measure_fold_origin els acc id h :
  (fold_left measure_element els acc).1 !! id = Some h ->
  acc.1 !! id = Some h \/ (id, h) ∈ els /\ 0 < h.
Proof.
  revert acc. induction els as [|[id' height] els IH]; intros acc Hh;
    [by left|].
  simpl in Hh. apply IH in Hh as [Hacc|[Hin Hpos]];
    [|right; split; [by right | done]].
  unfold measure_element in Hacc.
  destruct (Z.ltb_spec 0 height); simpl in Hacc; [|by left].
  destruct (negb _); simpl in Hacc; [|by left].
  destruct (decide (id' = id)) as [->|Hne].
  - rewrite lookup_insert_eq in Hacc. injection Hacc as ->.
    right. split; [by left | done].
  - rewrite lookup_insert_ne in Hacc by done. by left.
Qed.

(** On a recomputed table a viewport no further down than the buffer
    has a window that starts at the first message. *)
Lemma getVisibleRange_top s scrollTop viewportHeight :
  table_recomputed s ->
  cache_positive (messageHeights s) ->
  (scrollTop <= BUFFER_PX)%Q ->
  start (getVisibleRange s scrollTop viewportHeight) = 0
  /\ (allMessages s <> [] ->
      0 < end_ (getVisibleRange s scrollTop viewportHeight)
      <= Z.of_nat (length (allMessages s))).
Proof.
  intros Htable Hpos Htop.
  destruct (decide (allMessages s = [])) as [E|Hne].
  { unfold getVisibleRange. by rewrite E. }
  pose proof (nonempty_length s Hne) as Hn.
  destruct (getVisibleRange_searched s Htable Hpos scrollTop viewportHeight Hne)
    as (lo & hi & -> & Hlo & Hhi & Hbelow & _).
  simpl. destruct lo as [|lo]; [split; lia|]. exfalso.
  specialize (Hbelow 0%nat ltac:(lia)).
  pose proof (edges_order s Htable Hpos 0%nat ltac:(lia)) as [H0 Hb].
  assert (0 < bottom_edge s 0) as Hb0 by lia.
  apply inject_Z_pos in Hb0. unfold BUFFER_PX in *.
  apply Q.max_lt_iff in Hbelow as [Hlt|Hlt]; lra.
Qed.

(** The state [renderSession] renders, and what its render keeps. *)
Lemma renderSession_fields messages dom s :
  let s' := renderSession messages dom s in
  let msgs := sequence_of (sortNewestFirst s) messages in
  currentSessionData s' = currentSessionData s
  /\ sortNewestFirst s' = sortNewestFirst s
  /\ allMessages s' = msgs
  /\ selectedMessageIndex s' = -1
  /\ table_fresh ∅ s'
  /\ start (visibleRange s') = 0
  /\ (messages <> [] ->
      0 < end_ (visibleRange s') <= Z.of_nat (length messages))
  /\ exists els,
       messageHeights s' = (measure_rendered els ∅).1
       /\ forall el, el ∈ els ->
            exists i m, msgs !! i = Some m
                     /\ el = (elementId dom (msg_id m), offsetHeight dom i)
                     /\ Z.of_nat i < end_ (visibleRange s').
Proof.
  intros s' msgs. subst s'. unfold renderSession.
  fold (sequence_of (sortNewestFirst s) messages). fold msgs.
  set (sr := set_minimap 0 0 _ _ _ _).
  set (dom' := {| scrollTop := scrollTop dom; clientHeight := clientHeight dom;
                  messagesContainer := true; minimap := minimap dom;
                  offsetHeight := offsetHeight dom;
                  elementId := elementId dom |}).
  set (h := if Qeq_bool (clientHeight dom) 0 then 800%Q else clientHeight dom).
  set (sc := calculateOffsets sr).
  set (s0 := set_visibleRange (getVisibleRange sc 0 h) sc).
  assert (allMessages sc = msgs /\ messageHeights sc = ∅
          /\ currentSessionData sc = currentSessionData s
          /\ sortNewestFirst sc = sortNewestFirst s
          /\ selectedMessageIndex sc = -1) as (Hm & Hh & Hd & Hn & Hsel).
  { subst sc. rewrite calculateOffsets_table_for. by repeat split. }
  assert (table_recomputed sc) as Hrec
    by apply table_recomputed_calculateOffsets.
  assert (cache_positive (messageHeights sc)) as Hpos
    by (rewrite Hh; apply cache_positive_empty).
  destruct (getVisibleRange_top sc 0 h Hrec Hpos ltac:(done)) as [Hstart Hend].
  pose proof (renderVisibleMessages_fields dom' s0)
    as (R1 & R2 & R3 & R4 & R5 & R6 & R7).
  rewrite R6, R7, R1, R5, R4.
  split; [done|]. split; [done|]. split; [done|]. split; [done|].
  split.
  { unfold table_fresh. rewrite R1, R2, R3. simpl.
    apply table_fresh_recomputed in Hrec. unfold table_fresh in Hrec.
    by rewrite Hh in Hrec. }
  split; [done|].
  split.
  { intros Hne. simpl. rewrite <- (sequence_of_length (sortNewestFirst s)).
    fold msgs. rewrite <- Hm. apply Hend. rewrite Hm. subst msgs.
    intros E. apply (f_equal length) in E.
    rewrite sequence_of_length in E. by destruct messages. }
  destruct (renderVisibleMessages_cases dom' s0) as [->|[_ Hlt]].
  { exists []. split; [by simpl|]. intros el Hel. by apply elem_of_nil in Hel. }
  rewrite renderVisibleMessages_heights by done.
  exists (rendered_elements dom' (allMessages s0) (render_start s0)
            (render_end s0)).
  split; [by simpl; rewrite Hh|].
  intros el Hel. destruct (render_bounds s0) as [Hs0 _].
  apply rendered_elements_lookup in Hel as (i & m & Hlo & Hhi & Hmi & ->);
    [|done].
  exists i, m. split; [by rewrite <- Hm|]. split; [done|].
  specialize (Hhi Hlt). unfold render_end in Hhi. simpl in *. lia.
Qed.

(** X12. [renderSession] starts the new sequence from scratch: the
    sequence is the session's messages in the chosen order, nothing is
    selected, the table is the table of the estimates (message [i] at
    [96 * i], total height [96 * n - 16]), the window starts at the
    first message and is not empty, and every entry of the height cache
    is a positive height measured in this render on the element of a
    message of the new window, under the [id] read back from that
    element: none survives from the sequence shown before. *)
Theorem renderSession_resets (messages : list Message) (dom : Dom) (s : State) :
  let s' := renderSession messages dom s in
  let n := length messages in
  allMessages s' = sequence_of (sortNewestFirst s) messages
  /\ selectedMessageIndex s' = -1
  /\ (forall i, (i < n)%nat ->
        messageOffsets s' !! i = Some (96 * Z.of_nat i))
  /\ totalHeight s' = (if decide (messages = []) then 0
                       else 96 * Z.of_nat n - 16)
  /\ start (visibleRange s') = 0
  /\ (messages <> [] -> 0 < end_ (visibleRange s') <= Z.of_nat n)
  /\ (forall id h, messageHeights s' !! id = Some h ->
        0 < h
        /\ exists i m, allMessages s' !! i = Some m
                    /\ elementId dom (msg_id m) = id
                    /\ h = offsetHeight dom i
                    /\ Z.of_nat i < end_ (visibleRange s')).
Proof.
  intros s' n.
  pose proof (renderSession_fields messages dom s)
    as (_ & _ & Hm & Hsel & Hfresh & Hstart & Hend & els & Hh & Hels).
  fold s' in Hm, Hsel, Hfresh, Hstart, Hend, Hh, Hels.
  split; [done|]. split; [done|].
  unfold table_fresh, table_for in Hfresh. rewrite Hm in Hfresh.
  injection Hfresh as Ho Ht.
  destruct (offsets_loop_estimates ∅
              (sequence_of (sortNewestFirst s) messages) 0) as [Hi Hf].
  { intros m _. apply lookup_empty. }
  rewrite sequence_of_length in Hi, Hf. fold n in Hi, Hf.
  split.
  { intros i Hlt. rewrite Ho, Hi by done. f_equal. }
  split.
  { rewrite Ht, Hf. destruct (decide (messages = [])) as [->|Hne].
    - unfold sequence_of. by destruct (sortNewestFirst s).
    - assert (0 < n)%nat by (subst n; destruct messages; [done | simpl; lia]).
      destruct (sequence_of (sortNewestFirst s) messages) eqn:E.
      + apply (f_equal length) in E. rewrite sequence_of_length in E.
        simpl in E. lia.
      + unfold ESTIMATED_HEIGHT, GAP. lia. }
  split; [done|]. split; [done|].
  intros id h Hid. rewrite Hh in Hid.
  apply measure_fold_origin in Hid as [Hempty|[Hin Hpos]];
    [simpl in Hempty; by rewrite lookup_empty in Hempty|].
  split; [done|].
  destruct (Hels _ Hin) as (i & m & Hmi & Heq & Hi').
  injection Heq as -> ->. exists i, m. by rewrite Hm.
Qed.

Lemma renderSession_resets_witness :
  0 < end_ (visibleRange (renderSession three_messages example_dom three_clicked))
  <= 3.
Proof.
  apply (renderSession_resets three_messages example_dom three_clicked).
  discriminate.
Defined.

(** ** Toggling the sort order *)

Lemma toggleSort_open dom s messages :
  currentSessionData s = Some messages ->
  toggleSort dom s
  = renderSession messages dom
      (set_session (Some messages) (negb (sortNewestFirst s))
         (showThinking s) s).
Proof. intros Hd. unfold toggleSort. simpl. by rewrite Hd. Qed.

Lemma sequence_of_negb newest messages :
  sequence_of (negb newest) messages = reverse (sequence_of newest messages).
Proof.
  unfold sequence_of. destruct newest; simpl; [|done].
  by rewrite reverse_involutive.
Qed.

(** X13. With a session open, toggling the sort order reverses the
    sequence, flips the flag, clears the selection and starts again
    from the table of the estimates; toggling twice gives the sequence
    back.  With no session open only the flag flips. *)
Theorem toggleSort_reverses (dom : Dom) (s : State) :
  (forall messages,
     currentSessionData s = Some messages ->
     allMessages s = sequence_of (sortNewestFirst s) messages ->
     let s' := toggleSort dom s in
     allMessages s' = reverse (allMessages s)
     /\ sortNewestFirst s' = negb (sortNewestFirst s)
     /\ selectedMessageIndex s' = -1
     /\ table_fresh ∅ s'
     /\ forall dom2, allMessages (toggleSort dom2 s') = allMessages s)
  /\ (currentSessionData s = None ->
      toggleSort dom s
      = set_session None (negb (sortNewestFirst s)) (showThinking s) s).
Proof.
  split.
  - intros messages Hd Hm s'. subst s'.
    rewrite (toggleSort_open dom s messages Hd).
    set (s0 := set_session _ _ _ s).
    pose proof (renderSession_fields messages dom s0)
      as (Hd' & Hn' & Hm' & Hsel & Hfresh & _).
    set (s' := renderSession messages dom s0) in *.
    change (sortNewestFirst s0) with (negb (sortNewestFirst s)) in *.
    change (currentSessionData s0) with (Some messages) in Hd'.
    rewrite sequence_of_negb, <- Hm in Hm'.
    repeat split; try done.
    intros dom2. rewrite (toggleSort_open dom2 s' messages Hd').
    pose proof (renderSession_fields messages dom2
                  (set_session (Some messages) (negb (sortNewestFirst s'))
                     (showThinking s') s')) as (_ & _ & Hm2 & _).
    rewrite Hm2. simpl. rewrite Hn', negb_involutive. by rewrite Hm.
  - intros Hd. unfold toggleSort. simpl. by rewrite Hd.
Qed.

Lemma toggleSort_reverses_witness :
  let s := loadSession three_messages example_dom initial_state in
  msg_id <$> allMessages s = ["m3"; "m2"; "m1"]
  /\ msg_id <$> allMessages (toggleSort example_dom s) = ["m1"; "m2"; "m3"].
Proof.
  intros s. split; [vm_compute; reflexivity|].
  destruct (proj1 (toggleSort_reverses example_dom s) three_messages
              eq_refl eq_refl) as (-> & _).
  vm_compute. reflexivity.
Defined.

(** ** Invariants of the reachable states *)

Lemma table_step_calculateOffsets s0 s :
  allMessages s = allMessages s0 ->
  cache_positive (messageHeights s) ->
  table_step s0 (calculateOffsets s).
Proof.
  intros Hm Hpos. split.
  - by rewrite (proj1 (calculateOffsets_fields s)).
  - right. exists (messageHeights s). split; [done|].
    apply table_fresh_calculateOffsets.
Qed.

Lemma table_step_renderMinimap dom s0 s :
  cache_positive (messageHeights s) ->
  table_step s0 s -> table_step s0 (renderMinimap dom s).
Proof.
  intros Hpos Hstep. destruct (renderMinimap_cases dom s) as [->|[-> _]];
    [done|].
  apply table_step_calculateOffsets; [apply Hstep | done].
Qed.

Lemma table_step_renderVisibleMessages dom s0 s :
  table_step s0 s -> table_step s0 (renderVisibleMessages dom s).
Proof.
  intros [Hm Ht].
  pose proof (renderVisibleMessages_fields dom s) as (R1 & R2 & R3 & _).
  split; [congruence|]. destruct Ht as [[Ho Htot]|(h & Hpos & Hfresh)].
  - left. split; congruence.
  - right. exists h. split; [done|]. unfold table_fresh in *. congruence.
Qed.

Lemma table_step_refl s : table_step s s.
Proof. split; [done|]. by left. Qed.

(** The selection after [selectMessage]. *)
Lemma selectMessage_fields index dom s :
  let s' := (selectMessage index dom s).1 in
  currentSessionData s' = currentSessionData s
  /\ sortNewestFirst s' = sortNewestFirst s
  /\ allMessages s' = allMessages s
  /\ messageOffsets s' = messageOffsets s
  /\ totalHeight s' = totalHeight s
  /\ visibleRange s' = visibleRange s
  /\ (allMessages s = [] -> s' = s)
  /\ (allMessages s <> [] ->
      selectedMessageIndex s'
      = Z.max 0 (Z.min index (Z.of_nat (length (allMessages s)) - 1))).
Proof.
  intros s'. subst s'. destruct (decide (allMessages s = [])) as [E|Hne].
  - unfold selectMessage. rewrite E. by repeat split.
  - rewrite selectMessage_nonempty by done. by repeat split.
Qed.

(** A step either renders a session afresh or keeps the sequence. *)
Lemma step_cases s s' :
  step s s' ->
  cache_positive (messageHeights s) ->
  (exists messages dom s0,
     s' = renderSession messages dom s0 /\ currentSessionData s0 = Some messages)
  \/ (table_step s s'
      /\ (currentSessionData s' = currentSessionData s
          /\ sortNewestFirst s' = sortNewestFirst s
          \/ currentSessionData s' = None)
      /\ (selectedMessageIndex s' = selectedMessageIndex s
          \/ 0 <= selectedMessageIndex s'
             < Z.of_nat (length (allMessages s)))).
Proof.
  intros Hstep Hpos.
  assert (forall s1, same_view s s1 -> table_step s s1 ->
            table_step s s1
            /\ (currentSessionData s1 = currentSessionData s
                /\ sortNewestFirst s1 = sortNewestFirst s
                \/ currentSessionData s1 = None)
            /\ (selectedMessageIndex s1 = selectedMessageIndex s
                \/ 0 <= selectedMessageIndex s1
                   < Z.of_nat (length (allMessages s)))) as Hview.
  { intros s1 (H1 & H2 & H3 & H4) Ht. split; [done|]. split; left; done. }
  destruct Hstep.
  - left. by eexists messages, dom, _.
  - right. unfold renderSession_timeout.
    rewrite renderMinimap_recomputed
      by apply table_recomputed_calculateOffsets.
    apply Hview; [apply same_view_calculateOffsets|].
    by apply table_step_calculateOffsets.
  - destruct (currentSessionData s) as [messages|] eqn:Hd.
    + left. rewrite (toggleSort_open dom s messages Hd).
      by eexists messages, dom, _.
    + right. unfold toggleSort. simpl. rewrite Hd.
      split; [split; [done | by left]|]. split; [by right | by left].
  - right. apply Hview; [by repeat split | (split; [done | by left])].
  - right. unfold toggleThinking_timeout.
    set (s1 := set_messageHeights _ s).
    assert (cache_positive (messageHeights s1)) as Hpos1
      by (by apply remeasure_positive).
    rewrite renderMinimap_recomputed
      by apply table_recomputed_calculateOffsets.
    apply Hview.
    + apply (same_view_trans _ s1); [by repeat split|].
      apply same_view_calculateOffsets.
    + by apply table_step_calculateOffsets.
  - right.
    pose proof (heightRecalc_timeout_fields dom s)
      as (Hv & Hh & _ & _ & Ho & Htot).
    apply Hview; [done|]. split; [apply Hv|]. right.
    exists (messageHeights s). split; [done|].
    unfold table_fresh. rewrite Ho, Htot, (proj1 (proj2 (proj2 Hv))).
    pose proof (table_fresh_calculateOffsets s) as Hf.
    unfold table_fresh in Hf.
    by rewrite (proj1 (calculateOffsets_fields s)) in Hf.
  - right. unfold handleScroll_frame.
    destruct (_ || _);
      [|apply Hview; [apply same_view_refl | (split; [done | by left])]].
    apply Hview.
    + apply (same_view_trans _ (set_visibleRange
               (getVisibleRange s (scrollTop dom) (clientHeight dom)) s));
        [by repeat split | apply same_view_renderVisibleMessages].
    + apply table_step_renderVisibleMessages. split; [done | by left].
  - right. unfold handleMinimapClick.
    destruct (minimap dom); cbn [fst];
      (apply Hview; [by repeat split | split; [done | by left]]).
  - right. unfold minimapClick_frame.
    set (r := getVisibleRange s (scrollTop dom) (clientHeight dom)).
    pose proof (same_view_renderVisibleMessages dom (set_visibleRange r s))
      as (V1 & V2 & V3 & V4).
    pose proof (table_step_renderVisibleMessages dom s (set_visibleRange r s)
                  ltac:(split; [done | by left])) as [T1 T2].
    apply Hview; [by repeat split|].
    split; [done|]. destruct T2 as [[? ?]|(h & ? & Hf)]; [by left|].
    right. by exists h.
  - right. unfold minimapClick_timeout.
    destruct (minimapNeedsRender s);
      [|apply Hview; [by repeat split | split; [done | by left]]].
    set (s1 := set_minimap _ _ _ _ _ s).
    apply Hview.
    + apply (same_view_trans _ s1); [by repeat split|].
      apply same_view_renderMinimap.
    + apply table_step_renderMinimap; [done|]. split; [done | by left].
  - right.
    pose proof (selectMessage_fields index dom s)
      as (F1 & F2 & F3 & F4 & F5 & _ & Fe & Fn).
    split; [split; [done | by left]|]. split; [by left|].
    destruct (decide (allMessages s = [])) as [E|Hne].
    + left. by rewrite (Fe E).
    + right. rewrite (Fn Hne). pose proof (nonempty_length s Hne). lia.
  - right. unfold navigateMessages.
    destruct (decide (allMessages s = [])) as [E|Hne].
    { rewrite E. simpl. split; [(split; [done | by left])|].
      split; left; done. }
    assert (forall index,
              table_step s (selectMessage index dom s).1
              /\ (currentSessionData (selectMessage index dom s).1
                  = currentSessionData s
                  /\ sortNewestFirst (selectMessage index dom s).1
                     = sortNewestFirst s
                  \/ currentSessionData (selectMessage index dom s).1 = None)
              /\ (selectedMessageIndex (selectMessage index dom s).1
                  = selectedMessageIndex s
                  \/ 0 <= selectedMessageIndex (selectMessage index dom s).1
                     < Z.of_nat (length (allMessages s)))) as Hsel.
    { intros index.
      pose proof (selectMessage_fields index dom s)
        as (F1 & F2 & F3 & F4 & F5 & _ & _ & Fn).
      split; [split; [done | by left]|]. split; [by left|].
      right. rewrite (Fn Hne). pose proof (nonempty_length s Hne). lia. }
    destruct (allMessages s) eqn:E; [done|]. rewrite <- E in *.
    destruct (_ =? _); apply Hsel.
Qed.

Lemma reachable_invariants s :
  reachable s ->
  cache_positive (messageHeights s)
  /\ (forall messages, currentSessionData s = Some messages ->
        allMessages s = sequence_of (sortNewestFirst s) messages)
  /\ (selectedMessageIndex s = -1
      \/ 0 <= selectedMessageIndex s < Z.of_nat (length (allMessages s)))
  /\ (exists heights, cache_positive heights /\ table_fresh heights s).
Proof.
  induction 1 as [|s s' _ (Hpos & Hseq & Hsel & h & Hh & Hfresh) Hstep].
  - split; [apply cache_positive_empty|]. split; [done|]. split; [by left|].
    exists ∅. split; [apply cache_positive_empty | done].
  - split; [by apply (step_positive s s')|].
    destruct (step_cases s s' Hstep Hpos)
      as [(messages & dom & s0 & -> & Hd)
         |([Hm Ht] & Hdata & Hselect)].
    + pose proof (renderSession_fields messages dom s0)
        as (F1 & F2 & F3 & F4 & F5 & _).
      split.
      { intros messages' Hd'. rewrite F1, Hd in Hd'. injection Hd' as <-.
        by rewrite F2, F3. }
      split; [by left|].
      exists ∅. split; [apply cache_positive_empty | done].
    + split.
      { intros messages Hd. destruct Hdata as [[Hd' Hn']|Hnone];
          [|congruence].
        rewrite Hm, Hn'. apply Hseq. congruence. }
      split.
      { rewrite Hm. destruct Hselect as [->|Hin]; [done | by right]. }
      destruct Ht as [[Ho Htot]|Hnew]; [|done].
      exists h. split; [done|]. unfold table_fresh in *. congruence.
Qed.

Lemma loaded_reachable messages dom :
  reachable (loadSession messages dom initial_state).
Proof.
  apply (reachable_step initial_state); [apply reachable_initial|].
  apply step_loadSession.
Qed.

(** X14. In every reachable state with a session open the sequence is
    the session's messages in the order of the sort flag: reversed when
    newest first, as delivered otherwise. *)
Theorem sequence_follows_session (s : State) (messages : list Message) :
  reachable s ->
  currentSessionData s = Some messages ->
  allMessages s = (if sortNewestFirst s then reverse messages else messages).
Proof. intros Hs. by apply reachable_invariants. Qed.

Lemma sequence_follows_session_witness :
  allMessages (loadSession three_messages example_dom initial_state)
  = reverse three_messages.
Proof.
  apply (sequence_follows_session _ three_messages
           (loaded_reachable three_messages example_dom) eq_refl).
Defined.

(** X15. In every reachable state the selection is either none ([-1])
    or the index of a message of the sequence. *)
Theorem selection_in_range (s : State) :
  reachable s ->
  selectedMessageIndex s = -1
  \/ (0 <= selectedMessageIndex s
      /\ is_Some (allMessages s !! Z.to_nat (selectedMessageIndex s))).
Proof.
  intros Hs. destruct (reachable_invariants s Hs) as (_ & _ & [Hsel|Hsel] & _);
    [by left|].
  right. split; [lia|]. apply lookup_lt_is_Some. lia.
Qed.

Lemma selection_in_range_witness :
  let s := (selectMessage 7 example_dom
              (loadSession three_messages example_dom initial_state)).1 in
  selectedMessageIndex s = -1
  \/ (0 <= selectedMessageIndex s
      /\ is_Some (allMessages s !! Z.to_nat (selectedMessageIndex s))).
Proof.
  apply selection_in_range.
  apply (reachable_step (loadSession three_messages example_dom initial_state));
    [apply loaded_reachable | apply step_selectMessage].
Defined.

(** X16. In every reachable state the offset table is a well-formed
    table of the current sequence, even while it lags behind the cache:
    it has one entry per message, starts at 0, and a later entry lies
    more than a gap above an earlier one; the total height is not
    negative. *)
Theorem table_always_well_formed (s : State) :
  reachable s ->
  length (messageOffsets s) = length (allMessages s)
  /\ (allMessages s <> [] -> messageOffsets s !! 0%nat = Some 0)
  /\ (forall i j a b, (i < j)%nat ->
        messageOffsets s !! i = Some a -> messageOffsets s !! j = Some b ->
        0 <= a /\ a + GAP < b)
  /\ 0 <= totalHeight s.
Proof.
  intros Hs.
  destruct (reachable_invariants s Hs) as (_ & _ & _ & h & Hh & Hfresh).
  unfold table_fresh, table_for in Hfresh. injection Hfresh as -> ->.
  split; [apply offsets_loop_length|].
  split. { destruct (allMessages s); [done|]. intros _. apply offsets_loop_head. }
  split.
  - intros i j a b Hij Ha Hb. split; [by apply offsets_loop_lower in Ha|].
    destruct (lookup_lt_is_Some_2 (allMessages s) i) as [m Hm].
    { apply lookup_lt_Some in Ha. by rewrite offsets_loop_length in Ha. }
    pose proof (offsets_loop_mono h (allMessages s) 0 i j m a b Hh Hij Hm Ha Hb).
    pose proof (heightOf_positive h m Hh). lia.
  - destruct (allMessages s); lia.
Qed.

Lemma table_always_well_formed_witness :
  length (messageOffsets (loadSession three_messages example_dom initial_state))
  = length (allMessages (loadSession three_messages example_dom initial_state)).
Proof.
  apply (table_always_well_formed _ (loaded_reachable three_messages example_dom)).
Defined.

(** ** Moving the selection *)

Lemma navigateMessages_nonempty direction dom s :
  allMessages s <> [] ->
  navigateMessages direction dom s
  = if selectedMessageIndex s =? -1
    then selectMessage
           (if 0 <? direction then 0
            else Z.of_nat (length (allMessages s)) - 1) dom s
    else selectMessage (selectedMessageIndex s + direction) dom s.
Proof. intros Hne. unfold navigateMessages. by destruct (allMessages s). Qed.

Lemma selectMessage_selected index dom s :
  allMessages s <> [] ->
  selectedMessageIndex (selectMessage index dom s).1
  = Z.max 0 (Z.min index (Z.of_nat (length (allMessages s)) - 1)).
Proof. intros Hne. by rewrite selectMessage_nonempty. Qed.

(** X17. With a message selected, [navigateMessages] moves the
    selection by [direction] and stops at the ends: from the last
    message the next one is the last message, from the first message
    the previous one is the first. *)
Theorem navigateMessages_moves (direction : Z) (dom : Dom) (s : State) :
  let n := Z.of_nat (length (allMessages s)) in
  let sel := selectedMessageIndex s in
  let sel' := selectedMessageIndex (navigateMessages direction dom s).1 in
  0 <= sel < n ->
  sel' = Z.max 0 (Z.min (sel + direction) (n - 1))
  /\ 0 <= sel' < n
  /\ (direction = 1 -> sel' = if sel =? n - 1 then sel else sel + 1)
  /\ (direction = -1 -> sel' = if sel =? 0 then sel else sel - 1).
Proof.
  intros n sel sel' Hsel.
  assert (allMessages s <> []) as Hne.
  { intros E. subst n. rewrite E in Hsel. simpl in Hsel. lia. }
  assert (sel' = Z.max 0 (Z.min (sel + direction) (n - 1))) as ->.
  { subst sel'. rewrite navigateMessages_nonempty by done.
    destruct (Z.eqb_spec (selectedMessageIndex s) (-1)); [subst sel; lia|].
    by rewrite selectMessage_selected. }
  split; [done|]. split; [lia|]. split; intros ->.
  - destruct (Z.eqb_spec sel (n - 1)); lia.
  - destruct (Z.eqb_spec sel 0); lia.
Qed.

Lemma navigateMessages_moves_witness :
  let s := (selectMessage 2 example_dom three_estimated).1 in
  selectedMessageIndex (navigateMessages 1 example_dom s).1 = 2
  /\ selectedMessageIndex (navigateMessages (-1) example_dom s).1 = 1.
Proof.
  intros s.
  assert (0 <= selectedMessageIndex s < Z.of_nat (length (allMessages s)))
    as Hsel by (vm_compute; split; [discriminate | reflexivity]).
  split.
  - apply (navigateMessages_moves 1 example_dom s Hsel). reflexivity.
  - apply (navigateMessages_moves (-1) example_dom s Hsel). reflexivity.
Defined.

(** X18. Selecting a message again after the content has scrolled where
    the first selection asked does not move the content elsewhere: the
    second selection asks for the same position or for none, and for
    none whenever the viewport is at least the height of the message
    plus the margin 100. *)
Theorem selectMessage_settles (index : Z) (dom : Dom) (s : State) (top : Q) :
  table_recomputed s ->
  cache_positive (messageHeights s) ->
  allMessages s <> [] ->
  (selectMessage index dom s).2 = Some top ->
  let s' := (selectMessage index dom s).1 in
  let i := Z.to_nat (selectedMessageIndex s') in
  let again := (selectMessage index (scrolled_to top dom) s').2 in
  (again = None \/ again = Some top)
  /\ (inject_Z (bottom_edge s i - top_edge s i + 100) <= clientHeight dom ->
      again = None)%Q.
Proof.
  intros Htable Hpos Hne Htop s' i again.
  pose proof (nonempty_length s Hne) as Hn.
  assert (allMessages s' <> []) as Hne' by (subst s'; by rewrite
    (proj1 (proj2 (proj2 (selectMessage_fields index dom s))))).
  subst again s' i. rewrite (selectMessage_nonempty index (scrolled_to top dom))
    by done.
  rewrite selectMessage_nonempty in Htop |- * by done.
  cbv zeta in *. cbn [fst snd selectedMessageIndex set_selectedMessageIndex
    allMessages messageOffsets messageHeights scrolled_to scrollTop
    clientHeight] in *.
  set (clamped := Z.max 0 (Z.min index (Z.of_nat (length (allMessages s)) - 1)))
    in *.
  set (i := Z.to_nat clamped) in *.
  destruct (lookup_lt_is_Some_2 (allMessages s) i) as [m Hm]; [lia|].
  rewrite Hm in *.
  pose proof (edges_order s Htable Hpos i ltac:(lia)) as [H0 _].
  pose proof (heightOf_positive (messageHeights s) m Hpos) as Hh.
  rewrite (bottom_edge_height s Hpos i m Hm).
  fold (top_edge s i) in *.
  destruct (_ && _) eqn:Hvis in Htop; [done|]. injection Htop as <-.
  assert (Qle_bool (inject_Z (Z.max 0 (top_edge s i - 100)))
                   (inject_Z (top_edge s i)) = true) as ->.
  { apply Qle_bool_iff. rewrite <- Zle_Qle. lia. }
  simpl andb.
  match goal with
  | |- context [if ?b then _ else _] => destruct b eqn:Hfit
  end; [split; [by left | done]|].
  split; [by right|]. intros Hroom. exfalso.
  apply Qle_bool_false in Hfit. apply Hfit.
  replace (top_edge s i + heightOf (messageHeights s) m - top_edge s i + 100)
    with (heightOf (messageHeights s) m + 100) in Hroom by lia.
  rewrite inject_Z_plus in Hroom |- *.
  destruct (Z.max_spec 0 (top_edge s i - 100)) as [[Hlt ->]|[Hge ->]].
  - unfold Z.sub. rewrite inject_Z_plus, inject_Z_opp.
    change (inject_Z 100) with 100%Q in *. lra.
  - assert (inject_Z (top_edge s i) <= 100)%Q as Hsmall
      by (change 100%Q with (inject_Z 100); rewrite <- Zle_Qle; lia).
    change (inject_Z 100) with 100%Q in Hroom.
    change (inject_Z 0) with 0%Q. lra.
Qed.

Lemma selectMessage_settles_witness :
  (selectMessage 2 (scrolled_to (inject_Z 92) example_dom)
     (selectMessage 2 example_dom three_estimated).1).2 = None.
Proof.
  assert (allMessages three_estimated <> []) as Hne
    by (vm_compute; discriminate).
  apply (selectMessage_settles 2 example_dom three_estimated (inject_Z 92)
           (table_recomputed_calculateOffsets _) three_estimated_positive Hne
           eq_refl).
  vm_compute. discriminate.
Defined.

(** ** Jumping to a search result *)

Lemma findIndex_from_spec {A} (p : A -> bool) (l : list A) (i0 : Z) :
  0 <= i0 ->
  (findIndex_from p l i0 = -1 /\ Forall (fun x => p x = false) l)
  \/ (exists (k : nat) x,
        findIndex_from p l i0 = i0 + Z.of_nat k
        /\ l !! k = Some x /\ p x = true
        /\ forall j y, (j < k)%nat -> l !! j = Some y -> p y = false).
Proof.
  revert i0. induction l as [|x l IH]; intros i0 Hi0; simpl.
  - left. by split.
  - destruct (p x) eqn:Hx.
    + right. exists 0%nat, x. repeat split; [lia | done |]. intros; lia.
    + destruct (IH (i0 + 1) ltac:(lia)) as [[Hr Hall]|(k & y & Hr & Hk & Hy & Hlt)].
      * left. split; [done|]. by constructor.
      * right. exists (S k), y. repeat split; [lia | done | done |].
        intros [|j] z Hj Hz; simpl in Hz; [congruence|].
        apply (Hlt j); [lia | done].
Qed.

(** X19. The jump to a search result selects the first message of the
    sequence with the given id, and does nothing (no selection, no
    scroll) when the sequence has no message with that id. *)
Theorem scrollToMsg_selects (target : string) (dom : Dom) (s : State) :
  ((forall m, m ∈ allMessages s -> msg_id m <> target) ->
   scrollToMsg_timeout target dom s = (s, None))
  /\ (forall (i : nat) m,
        allMessages s !! i = Some m ->
        msg_id m = target ->
        (forall j m', (j < i)%nat -> allMessages s !! j = Some m' ->
           msg_id m' <> target) ->
        scrollToMsg_timeout target dom s = selectMessage (Z.of_nat i) dom s
        /\ selectedMessageIndex (scrollToMsg_timeout target dom s).1
           = Z.of_nat i).
Proof.
  unfold scrollToMsg_timeout, findIndex.
  destruct (findIndex_from_spec (fun m => bool_decide (msg_id m = target))
              (allMessages s) 0 ltac:(lia))
    as [[-> Hall]|(k & x & -> & Hk & Hx & Hlt)].
  - split; [done|]. intros i m Hm Hid _. exfalso.
    rewrite Forall_forall in Hall.
    specialize (Hall m ltac:(by eapply list_elem_of_lookup_2)).
    by apply bool_decide_eq_false in Hall.
  - apply bool_decide_eq_true in Hx.
    destruct (Z.leb_spec 0 (0 + Z.of_nat k)); [|lia]. split.
    + intros Hnone. exfalso. apply (Hnone x); [|done].
      by eapply list_elem_of_lookup_2.
    + intros i m Hm Hid Hfirst.
      assert (k = i) as ->.
      { destruct (Nat.lt_trichotomy k i) as [Hlt'|[->|Hgt]]; [|done|].
        - by destruct (Hfirst k x Hlt' Hk).
        - specialize (Hlt i m Hgt Hm). apply bool_decide_eq_false in Hlt.
          done. }
      replace (0 + Z.of_nat i) with (Z.of_nat i) by lia. split; [done|].
      assert (allMessages s <> []) as Hne by (intros E; by rewrite E in Hm).
      rewrite selectMessage_selected by done.
      apply lookup_lt_Some in Hm. lia.
Qed.

Lemma scrollToMsg_selects_witness :
  selectedMessageIndex (scrollToMsg_timeout "m2" example_dom three_estimated).1
  = 1.
Proof.
  apply (proj2 (scrollToMsg_selects "m2" example_dom three_estimated)
           1%nat (message "m2") eq_refl eq_refl).
  intros [|j] m' Hj Hm'; [|lia].
  vm_compute in Hm'. injection Hm' as <-. discriminate.
Defined.

(** ** The scroll frame *)

Lemma Range_eq (r1 r2 : Range) :
  start r1 = start r2 -> end_ r1 = end_ r2 -> r1 = r2.
Proof. destruct r1, r2. simpl. by intros -> ->. Qed.

(** X20. After a scroll frame the stored window is the window of the
    current scroll position; the frame renders only when the window has
    moved (otherwise the state is untouched), and it never changes the
    sequence, the table or the selection. *)
Theorem handleScroll_frame_window (dom : Dom) (s : State) :
  let s' := handleScroll_frame dom s in
  let r := getVisibleRange s (scrollTop dom) (clientHeight dom) in
  visibleRange s' = r
  /\ (visibleRange s = r -> s' = s)
  /\ (visibleRange s <> r ->
      s' = renderVisibleMessages dom (set_visibleRange r s))
  /\ allMessages s' = allMessages s
  /\ messageOffsets s' = messageOffsets s
  /\ totalHeight s' = totalHeight s
  /\ selectedMessageIndex s' = selectedMessageIndex s.
Proof.
  intros s' r. subst s'. unfold handleScroll_frame. fold r.
  pose proof (renderVisibleMessages_fields dom (set_visibleRange r s))
    as (R1 & R2 & R3 & R4 & R5 & _).
  destruct (Z.eqb_spec (start r) (start (visibleRange s))) as [Hs|Hs];
    [destruct (Z.eqb_spec (end_ r) (end_ (visibleRange s))) as [He|He]|];
    simpl.
  - assert (visibleRange s = r) as Hr by (by apply Range_eq).
    by repeat split.
  - repeat split; try done. intros Hr. by rewrite Hr in He.
  - repeat split; try done. intros Hr. by rewrite Hr in Hs.
Qed.

(** ** The minimap *)

(** X21. A click on the minimap and the viewport indicator agree: once
    the content has scrolled where the click asked, the indicator drawn
    for that position is centred on the click, unless the click is
    within half an indicator of the top, where the scroll is clamped
    and the indicator sits at the top. *)
Theorem minimap_click_centres (clientY rectTop : Q) (dom : Dom) (s : State)
    (minimapHeight : Q) :
  minimap dom = Some minimapHeight ->
  (0 < minimapHeight)%Q ->
  0 < totalHeight s ->
  let y := (clientY - rectTop)%Q in
  let scale := (minimapHeight / inject_Z (Z.max (totalHeight s) 1))%Q in
  let s' := (handleMinimapClick clientY rectTop dom s).1 in
  exists target top height,
    (handleMinimapClick clientY rectTop dom s).2 = Some target
    /\ updateMinimapViewport true minimapHeight target (clientHeight dom) s'
       = Some (top, height)
    /\ height == clientHeight dom * scale
    /\ (height / 2 <= y -> top + height / 2 == y)%Q
    /\ (y <= height / 2 -> top == 0)%Q.
Proof.
  intros Hmm Hpos Htot y scale s'.
  assert (0 < inject_Z (Z.max (totalHeight s) 1))%Q as HT
    by (apply inject_Z_pos; lia).
  assert (0 < scale)%Q as Hscale.
  { subst scale. apply Qlt_shift_div_l; [done|]. lra. }
  set (target := (y / scale - clientHeight dom / 2)%Q).
  assert (totalHeight s' = totalHeight s) as Hts.
  { subst s'. unfold handleMinimapClick. by rewrite Hmm. }
  exists (Qmax 0 target), (Qmax 0 target * scale)%Q,
         (clientHeight dom * scale)%Q.
  split. { unfold handleMinimapClick. by rewrite Hmm. }
  split.
  { unfold updateMinimapViewport. rewrite Hts. simpl negb.
    by destruct (Z.eqb_spec (totalHeight s) 0); [lia|]. }
  split; [reflexivity|].
  assert (target * scale == y - clientHeight dom * scale / 2) as Htarget.
  { subst target. field. lra. }
  split; intros Hy.
  - assert (0 <= target)%Q as H0.
    { apply (Qmult_le_r _ _ scale Hscale). rewrite Htarget. lra. }
    rewrite (Q.max_r _ _ H0), Htarget. field.
  - assert (target <= 0)%Q as H0.
    { apply (Qmult_le_r _ _ scale Hscale). rewrite Htarget. lra. }
    rewrite (Q.max_l _ _ H0). ring.
Qed.

Lemma minimap_click_centres_witness :
  exists target top height,
    (handleMinimapClick 300 0 example_dom three_estimated).2 = Some target
    /\ updateMinimapViewport true 600 target 200
         (handleMinimapClick 300 0 example_dom three_estimated).1
       = Some (top, height)
    /\ top + height / 2 == 300.
Proof.
  destruct (minimap_click_centres 300 0 example_dom three_estimated 600
              eq_refl eq_refl eq_refl)
    as (target & top & height & H1 & H2 & H3 & H4 & _).
  exists target, top, height. split; [exact H1|]. split; [exact H2|].
  rewrite <- (H4 ltac:(rewrite H3; vm_compute; discriminate)).
  change (300 - 0)%Q with 300%Q. reflexivity.
Defined.

(** ** Escaping *)

Lemma append_nil (b : string) : EmptyString +:+ b = b.
Proof. reflexivity. Qed.

Lemma append_cons x (a b : string) : String x a +:+ b = String x (a +:+ b).
Proof. reflexivity. Qed.

Lemma append_assoc' (a b c : string) : (a +:+ b) +:+ c = a +:+ (b +:+ c).
Proof.
  induction a as [|x a IH]; [done|]. rewrite !append_cons. by f_equal.
Qed.

Lemma replace_char_append c rep a b :
  replace_char c rep (a +:+ b) = replace_char c rep a +:+ replace_char c rep b.
Proof.
  induction a as [|x a IH]; [done|]. rewrite append_cons. cbn [replace_char].
  destruct (Ascii.eqb x c); rewrite IH; [|done].
  by rewrite append_assoc'.
Qed.

(** The four replacements of [escapeHtml], one after the other. *)
Lemma escape_chain_cons a rest :
  replace_char quote "&quot;"
    (replace_char ">" "&gt;"
       (replace_char "<" "&lt;" (replace_char "&" "&amp;" (String a rest))))
  = escape_char a
    +:+ replace_char quote "&quot;"
          (replace_char ">" "&gt;"
             (replace_char "<" "&lt;" (replace_char "&" "&amp;" rest))).
Proof.
  unfold escape_char. cbn [replace_char].
  destruct (Ascii.eqb_spec a "&") as [->|H1].
  { by rewrite !replace_char_append. }
  cbn [replace_char]. destruct (Ascii.eqb_spec a "<") as [->|H2].
  { by rewrite !replace_char_append. }
  cbn [replace_char]. destruct (Ascii.eqb_spec a ">") as [->|H3].
  { by rewrite !replace_char_append. }
  cbn [replace_char]. by destruct (Ascii.eqb_spec a quote) as [->|H4].
Qed.

Lemma escapeHtml_chars text : escapeHtml (Some text) = escape_chars text.
Proof.
  destruct text as [|a rest]; [done|].
  unfold escapeHtml. generalize (String a rest). clear.
  intros text. induction text as [|a rest IH]; [done|].
  rewrite escape_chain_cons. cbn [escape_chars]. by rewrite IH.
Qed.

Lemma all_plain_append a b : all_plain a -> all_plain b -> all_plain (a +:+ b).
Proof.
  induction a as [|x a IH]; [done|]. rewrite append_cons. simpl.
  intros [? ?] ?. split; auto.
Qed.

Lemma escape_char_plain a : all_plain (escape_char a).
Proof.
  unfold escape_char.
  destruct (Ascii.eqb_spec a "&"); [by repeat split|].
  destruct (Ascii.eqb_spec a "<"); [by repeat split|].
  destruct (Ascii.eqb_spec a ">"); [by repeat split|].
  destruct (Ascii.eqb_spec a quote); [by repeat split|].
  by repeat split.
Qed.

Lemma escape_chars_plain text : all_plain (escape_chars text).
Proof.
  induction text as [|a rest IH]; [done|]. cbn [escape_chars].
  apply all_plain_append; [apply escape_char_plain | done].
Qed.

Lemma escape_chars_append a b :
  escape_chars (a +:+ b) = escape_chars a +:+ escape_chars b.
Proof.
  induction a as [|x a IH]; [done|]. rewrite append_cons. cbn [escape_chars].
  by rewrite IH, append_assoc'.
Qed.

Lemma escape_chars_free text : free_of_markup text -> escape_chars text = text.
Proof.
  induction text as [|a rest IH]; [done|]. intros [(H1 & H2 & H3 & H4) Hrest].
  cbn [escape_chars]. rewrite (IH Hrest). unfold escape_char.
  destruct (Ascii.eqb_spec a "&"); [done|].
  destruct (Ascii.eqb_spec a "<"); [done|].
  destruct (Ascii.eqb_spec a ">"); [done|].
  by destruct (Ascii.eqb_spec a quote).
Qed.

(** X22. [escapeHtml] rewrites the text character by character: [&],
    [<], [>] and the double quote become their entities and every other
    character stays.  So it distributes over concatenation, its result
    has no [<], no [>] and no double quote, a text without the four
    characters is returned unchanged, and [null] gives the empty
    string. *)
Theorem escapeHtml_escapes (a b : string) :
  escapeHtml (Some a) = escape_chars a
  /\ escapeHtml (Some (a +:+ b)) = escapeHtml (Some a) +:+ escapeHtml (Some b)
  /\ all_plain (escapeHtml (Some a))
  /\ (free_of_markup a -> escapeHtml (Some a) = a)
  /\ escapeHtml None = EmptyString.
Proof.
  rewrite !escapeHtml_chars.
  split; [done|]. split; [apply escape_chars_append|].
  split; [apply escape_chars_plain|]. split; [apply escape_chars_free | done].
Qed.

Lemma escapeHtml_escapes_witness :
  escapeHtml (Some "if a then b") = "if a then b".
Proof.
  apply (escapeHtml_escapes "if a then b" EmptyString).
  vm_compute. repeat split; discriminate.
Defined.

Example escapeHtml_sample :
  escapeHtml (Some "a<b && c>d") = "a&lt;b &amp;&amp; c&gt;d".
Proof. vm_compute. reflexivity. Qed.

(** ** Snippets *)

Lemma prefix_cons x p y u :
  String.prefix (String x p) (String y u)
  = if ascii_dec x y then String.prefix p u else false.
Proof. reflexivity. Qed.

Lemma prefix_split p u :
  String.prefix p u = true -> exists r, u = p +:+ r.
Proof.
  revert u. induction p as [|x p IH]; intros u Hp; [by exists u|].
  destruct u as [|y u]; [done|]. rewrite prefix_cons in Hp.
  destruct (ascii_dec x y) as [->|]; [|done].
  destruct (IH u Hp) as [r ->]. by exists r.
Qed.

Lemma only_mark_plain_text text : all_plain text -> only_mark_tags text.
Proof.
  induction text as [|a rest IH]; [constructor|]. intros [Ha Hrest].
  constructor; auto.
Qed.

(** Removing plain characters from the front leaves such a text. *)
Lemma only_mark_strip p r :
  all_plain p -> only_mark_tags (p +:+ r) -> only_mark_tags r.
Proof.
  induction p as [|x p IH]; [done|]. intros [(H1 & H2 & H3) Hp].
  rewrite append_cons. intros H. apply IH; [done|].
  inversion H; subst; first [assumption | congruence].
Qed.

Section Replace.
Variables (pat' rep : string).
Hypothesis pat_plain : all_plain pat'.
Hypothesis rep_tag :
  forall text, only_mark_tags text -> only_mark_tags (rep +:+ text).

Let pat := String "&" pat'.

Lemma replace_from_skip p r :
  replace_from pat rep (String.length p) (p +:+ r) = replace_from pat rep 0 r.
Proof. induction p as [|x p IH]; [done|]. rewrite append_cons. exact IH. Qed.

Lemma replace_from_other c rest :
  c <> "&"%char ->
  replace_from pat rep 0 (String c rest)
  = String c (replace_from pat rep 0 rest).
Proof.
  intros Hc. cbn [replace_from]. unfold pat at 1. rewrite prefix_cons.
  by destruct (ascii_dec "&" c) as [<-|].
Qed.

Lemma replace_from_marks n u :
  (String.length u <= n)%nat ->
  only_mark_tags u -> only_mark_tags (replace_from pat rep 0 u).
Proof.
  revert u. induction n as [|n IH]; intros u Hlen Hu.
  { destruct u; [constructor | simpl in Hlen; lia]. }
  inversion Hu as [|a text Ha Ht Heq|text Ht Heq|text Ht Heq]; subst u.
  - constructor.
  - cbn [replace_from]. destruct (String.prefix pat (String a text)) eqn:Hp.
    + apply prefix_split in Hp as [r Hr]. unfold pat in Hr.
      rewrite append_cons in Hr. injection Hr as -> ->.
      apply rep_tag. unfold pat at 2. cbn [String.length].
      rewrite Nat.sub_1_r. cbn [Nat.pred]. rewrite replace_from_skip.
      assert (String.length r <= String.length (pat' +:+ r))%nat as Hr.
      { clear. induction pat' as [|x p IHp]; [done|].
        rewrite append_cons. simpl. lia. }
      apply IH; [simpl in Hlen; lia|].
      by apply (only_mark_strip pat').
    + constructor; [done|]. apply IH; [simpl in Hlen; lia | done].
  - change ("<mark>" +:+ text)
      with (String "<" (String "m" (String "a" (String "r"
              (String "k" (String ">" text)))))) in *.
    rewrite !replace_from_other by discriminate.
    apply (only_mark_open (replace_from pat rep 0 text)).
    apply IH; [simpl in Hlen; lia | done].
  - change ("</mark>" +:+ text)
      with (String "<" (String "/" (String "m" (String "a" (String "r"
              (String "k" (String ">" text))))))) in *.
    rewrite !replace_from_other by discriminate.
    apply (only_mark_close (replace_from pat rep 0 text)).
    apply IH; [simpl in Hlen; lia | done].
Qed.
End Replace.

(** X23. Whatever the snippet, [safeSnippet] returns a text whose only
    markup is [<mark>] and [</mark>] tags: outside these tags it has no
    [<], no [>] and no double quote. *)
Theorem safeSnippet_only_marks (snippet : option string) :
  only_mark_tags (safeSnippet snippet).
Proof.
  destruct snippet as [[|a rest]|]; [constructor | | constructor].
  unfold safeSnippet, replace_all. cbv zeta.
  change "&lt;/mark&gt;" with (String "&" "lt;/mark&gt;").
  change "&lt;mark&gt;" with (String "&" "lt;mark&gt;").
  eapply (replace_from_marks "lt;/mark&gt;" "</mark>");
    [by repeat split | apply only_mark_close | reflexivity |].
  eapply (replace_from_marks "lt;mark&gt;" "<mark>");
    [by repeat split | apply only_mark_open | reflexivity |].
  apply only_mark_plain_text. rewrite escapeHtml_chars.
  apply escape_chars_plain.
Qed.

Example safeSnippet_sample :
  safeSnippet (Some "x <mark>y</mark> <b>z</b> &lt;mark&gt;")
  = "x <mark>y</mark> &lt;b&gt;z&lt;/b&gt; &amp;lt;mark&amp;gt;".
Proof. vm_compute. reflexivity. Qed.

(** ** The session list *)

Lemma findIndex_unique (l : list Session) i c :
  NoDup (session_id <$> l) ->
  l !! i = Some c ->
  findIndex (fun s => bool_decide (session_id s = session_id c)) l = Z.of_nat i.
Proof.
  intros Hnd Hc. unfold findIndex.
  destruct (findIndex_from_spec
              (fun s => bool_decide (session_id s = session_id c)) l 0
              ltac:(lia)) as [[_ Hall]|(k & x & -> & Hk & Hx & _)].
  - rewrite Forall_forall in Hall.
    specialize (Hall c ltac:(by eapply list_elem_of_lookup_2)).
    apply bool_decide_eq_false in Hall. done.
  - apply bool_decide_eq_true in Hx.
    assert (k = i) as ->; [|lia].
    apply (NoDup_lookup _ k i (session_id c) Hnd); rewrite list_lookup_fmap.
    + rewrite Hk. simpl. by rewrite Hx.
    + by rewrite Hc.
Qed.

Lemma findIndex_absent {A} (p : A -> bool) (l : list A) :
  (forall x, x ∈ l -> p x = false) -> findIndex p l = -1.
Proof.
  intros Hall. unfold findIndex.
  destruct (findIndex_from_spec p l 0 ltac:(lia))
    as [[-> _]|(k & x & _ & Hk & Hx & _)]; [done|].
  rewrite (Hall x) in Hx; [done|]. by eapply list_elem_of_lookup_2.
Qed.

Lemma navigateSessions_nonempty direction sb :
  sessions sb <> [] ->
  navigateSessions direction sb
  = let n := Z.of_nat (length (sessions sb)) in
    let currentIndex :=
      match currentSession sb with
      | Some c =>
          findIndex (fun s => bool_decide (session_id s = session_id c))
                    (sessions sb)
      | None => -1
      end in
    let newIndex :=
      if currentIndex =? -1
      then (if 0 <? direction then 0 else n - 1)
      else Z.max 0 (Z.min (currentIndex + direction) (n - 1)) in
    if negb (newIndex =? currentIndex)
    then session_id <$> sessions sb !! Z.to_nat newIndex
    else None.
Proof. intros Hne. unfold navigateSessions. by destruct (sessions sb). Qed.

(** X24. With unique session ids and the current session at index [i]
    of the list, [navigateSessions] asks for the session at
    [i + direction] clamped to the list, and asks for nothing when that
    is the current session: it stops at both ends of the list and never
    reloads the session that is open. *)
Theorem navigateSessions_moves (direction : Z) (sb : Sidebar) (i : nat)
    (c : Session) :
  NoDup (session_id <$> sessions sb) ->
  sessions sb !! i = Some c ->
  currentSession sb = Some c ->
  let n := Z.of_nat (length (sessions sb)) in
  let j := Z.to_nat (Z.max 0 (Z.min (Z.of_nat i + direction) (n - 1))) in
  (j = i -> navigateSessions direction sb = None)
  /\ (j <> i ->
      exists s', sessions sb !! j = Some s'
              /\ navigateSessions direction sb = Some (session_id s')
              /\ session_id s' <> session_id c).
Proof.
  intros Hnd Hi Hc n j.
  assert (sessions sb <> []) as Hne by (intros E; by rewrite E in Hi).
  pose proof (lookup_lt_Some _ _ _ Hi) as Hlt.
  rewrite navigateSessions_nonempty by done. cbv zeta.
  rewrite Hc, (findIndex_unique _ i c Hnd Hi). fold n.
  destruct (Z.eqb_spec (Z.of_nat i) (-1)); [lia|].
  assert (Z.max 0 (Z.min (Z.of_nat i + direction) (n - 1)) = Z.of_nat j) as ->
    by (subst j n; lia).
  rewrite Nat2Z.id. split.
  - intros ->. by rewrite Z.eqb_refl.
  - intros Hji. destruct (Z.eqb_spec (Z.of_nat j) (Z.of_nat i)); [lia|].
    destruct (lookup_lt_is_Some_2 (sessions sb) j) as [s' Hs']; [subst j n; lia|].
    exists s'. rewrite Hs'. split; [done|]. split; [done|]. intros Hid.
    apply Hji. apply (NoDup_lookup _ j i (session_id c) Hnd);
      rewrite list_lookup_fmap; [rewrite Hs'; simpl; by rewrite Hid|].
    by rewrite Hi.
Qed.

(** X25. With no session open, or with the open session missing from
    the filtered list, [navigateSessions] asks for the first session
    going forward and for the last one going backward; on an empty list
    it asks for nothing. *)
Theorem navigateSessions_start (direction : Z) (sb : Sidebar) :
  (sessions sb = [] -> navigateSessions direction sb = None)
  /\ ((forall c, currentSession sb = Some c ->
         forall s, s ∈ sessions sb -> session_id s <> session_id c) ->
      sessions sb <> [] ->
      navigateSessions direction sb
      = session_id <$> (if 0 <? direction then head (sessions sb)
                        else last (sessions sb))).
Proof.
  split.
  { intros E. unfold navigateSessions. by rewrite E. }
  intros Habsent Hne. rewrite navigateSessions_nonempty by done. cbv zeta.
  assert (match currentSession sb with
          | Some c =>
              findIndex (fun s => bool_decide (session_id s = session_id c))
                        (sessions sb)
          | None => -1
          end = -1) as ->.
  { destruct (currentSession sb) as [c|]; [|done].
    apply findIndex_absent. intros s Hs. apply bool_decide_eq_false.
    by apply (Habsent c). }
  simpl (-1 =? -1).
  assert (0 < Z.of_nat (length (sessions sb)))
    by (destruct (sessions sb); [done | simpl; lia]).
  destruct (0 <? direction).
  - simpl. by rewrite head_lookup.
  - destruct (Z.eqb_spec (Z.of_nat (length (sessions sb)) - 1) (-1)); [lia|].
    simpl. rewrite last_lookup. f_equal. f_equal. lia.
Qed.

Lemma three_sessions_unique : NoDup (session_id <$> three_sessions).
Proof.
  change (NoDup ["s1"; "s2"; "s3"]).
  repeat (apply NoDup_cons; split;
          [rewrite ?not_elem_of_cons; repeat split;
           try discriminate; apply not_elem_of_nil|]).
  apply NoDup_nil_2.
Qed.

Lemma navigateSessions_moves_witness :
  navigateSessions 1 example_sidebar = Some "s3"
  /\ navigateSessions 1
       {| sessions := three_sessions; allSessions := three_sessions;
          currentSession := Some (session "s3" "viewer");
          selectedProject := EmptyString |} = None.
Proof.
  split.
  - destruct (proj2 (navigateSessions_moves 1 example_sidebar 1
                       (session "s2" "parser") three_sessions_unique
                       eq_refl eq_refl) ltac:(vm_compute; lia))
      as (s' & Hs' & -> & _).
    vm_compute in Hs'. injection Hs' as <-. reflexivity.
  - apply (proj1 (navigateSessions_moves 1
                    {| sessions := three_sessions;
                       allSessions := three_sessions;
                       currentSession := Some (session "s3" "viewer");
                       selectedProject := EmptyString |}
                    2 (session "s3" "viewer")
                    three_sessions_unique eq_refl eq_refl)).
    vm_compute. reflexivity.
Defined.

Lemma navigateSessions_start_witness :
  navigateSessions (-1)
    {| sessions := three_sessions; allSessions := three_sessions;
       currentSession := None; selectedProject := EmptyString |}
  = Some "s3".
Proof.
  rewrite (proj2 (navigateSessions_start (-1)
                    {| sessions := three_sessions;
                       allSessions := three_sessions;
                       currentSession := None;
                       selectedProject := EmptyString |}));
    [reflexivity | | ].
  - intros c Hc. discriminate Hc.
  - discriminate.
Defined.

(** X26. [filterSessions] shows the sessions of the chosen project, in
    the order of the full list, and all sessions when no project is
    chosen.  The open session stays open only if it is still listed;
    otherwise the first listed session is asked for, and [loadSession]
    will find it, or, when nothing is listed, the open session is
    dropped. *)
Theorem filterSessions_filters (sb : Sidebar) :
  let sb' := (filterSessions sb).1 in
  let action := (filterSessions sb).2 in
  allSessions sb' = allSessions sb
  /\ selectedProject sb' = selectedProject sb
  /\ (selectedProject sb = EmptyString -> sessions sb' = allSessions sb)
  /\ (selectedProject sb <> EmptyString ->
      forall s, s ∈ sessions sb'
                <-> s ∈ allSessions sb /\ project s = Some (selectedProject sb))
  /\ sessions sb' `sublist_of` allSessions sb
  /\ (action = NoAction ->
      currentSession sb' = currentSession sb
      /\ forall c, currentSession sb = Some c ->
           exists s, s ∈ sessions sb' /\ session_id s = session_id c)
  /\ (forall id, action = LoadSession id ->
      exists first, head (sessions sb') = Some first
                 /\ id = session_id first
                 /\ currentSession <$> loadSession_start id sb'
                    = Some (Some first))
  /\ (action = ShowNoSessions ->
      sessions sb' = [] /\ currentSession sb' = None).
Proof.
  intros sb' action. subst sb' action. unfold filterSessions.
  set (shown := if bool_decide (selectedProject sb = EmptyString)
                then allSessions sb
                else filter (fun s => project s = Some (selectedProject sb))
                            (allSessions sb)).
  assert ((selectedProject sb = EmptyString -> shown = allSessions sb)
          /\ (selectedProject sb <> EmptyString ->
              forall s, s ∈ shown
                <-> s ∈ allSessions sb /\ project s = Some (selectedProject sb))
          /\ shown `sublist_of` allSessions sb) as (Hall & Hsome & Hsub).
  { subst shown. case_bool_decide as Hsel.
    - split; [done|]. split; [done|]. reflexivity.
    - split; [done|]. split; [|apply sublist_filter].
      intros _ s. rewrite list_elem_of_filter. tauto. }
  clearbody shown.
  destruct (currentSession sb) as [c|] eqn:Hc; simpl.
  2: { do 5 (split; [done|]). split; [|done]. intros _. split; [done|].
       intros c Hc'. discriminate. }
  case_bool_decide as Hex; simpl.
  { do 5 (split; [done|]). split; [|done]. intros _. split; [done|].
    intros c' [= <-].
    apply Exists_exists in Hex as (s & Hs & Hid). by exists s. }
  destruct shown as [|first rest] eqn:Hshown; simpl.
  - do 5 (split; [done|]). by repeat split.
  - do 5 (split; [done|]). split; [done|]. split; [|done].
    intros id [= <-]. exists first. split; [done|]. split; [done|].
    unfold loadSession_start. simpl.
    rewrite filter_cons_True by done. done.
Qed.

Lemma filterSessions_filters_witness :
  session_id <$> sessions (filterSessions viewer_chosen).1 = ["s1"; "s3"]
  /\ (filterSessions viewer_chosen).2 = LoadSession "s1"
  /\ exists first, head (sessions (filterSessions viewer_chosen).1) = Some first
                /\ currentSession
                     <$> loadSession_start "s1" (filterSessions viewer_chosen).1
                   = Some (Some first).
Proof.
  split; [vm_compute; reflexivity|]. split; [vm_compute; reflexivity|].
  destruct (filterSessions_filters viewer_chosen)
    as (_ & _ & _ & _ & _ & _ & Hload & _).
  destruct (Hload "s1" ltac:(vm_compute; reflexivity)) as (first & H1 & _ & H3).
  by exists first.
Defined.

Lemma filterSessions_kept sb :
  allSessions (filterSessions sb).1 = allSessions sb
  /\ selectedProject (filterSessions sb).1 = selectedProject sb
  /\ (selectedProject sb = EmptyString ->
      sessions (filterSessions sb).1 = allSessions sb).
Proof.
  unfold filterSessions.
  destruct (currentSession sb) as [c|]; simpl;
    [case_bool_decide; simpl|];
    repeat case_match; simpl; repeat split; try done;
    intros E; rewrite bool_decide_eq_true_2 in * by done; congruence.
Qed.

(** X27. After [loadSessions] the project filter is empty or one of the
    projects that exist: a chosen project that is still there is kept,
    and one that has disappeared is dropped, so that all fetched
    sessions are shown. *)
Theorem loadSessions_filter (fetched : list Session) (projects : list string)
    (sb : Sidebar) :
  let sb' := (loadSessions fetched projects sb).1 in
  allSessions sb' = fetched
  /\ (selectedProject sb' = EmptyString \/ selectedProject sb' ∈ projects)
  /\ (selectedProject sb ∈ projects -> selectedProject sb' = selectedProject sb)
  /\ (selectedProject sb ∉ projects ->
      selectedProject sb' = EmptyString /\ sessions sb' = fetched).
Proof.
  intros sb'. subst sb'. unfold loadSessions.
  set (selected := if negb (bool_decide (selectedProject sb = EmptyString))
                      && negb (bool_decide (selectedProject sb ∈ projects))
                   then EmptyString else selectedProject sb).
  set (sb0 := {| sessions := sessions sb; allSessions := fetched;
                 currentSession := currentSession sb;
                 selectedProject := selected |}).
  pose proof (filterSessions_kept sb0) as (F1 & F2 & F3).
  rewrite F1, F2. simpl. split; [done|].
  assert ((selected = EmptyString \/ selected ∈ projects)
          /\ (selectedProject sb ∈ projects -> selected = selectedProject sb)
          /\ (selectedProject sb ∉ projects -> selected = EmptyString))
    as (H1 & H2 & H3).
  { subst selected. repeat case_bool_decide; simpl; naive_solver. }
  split; [done|]. split; [done|]. intros Hnot.
  split; [by apply H3|]. apply F3. simpl. by apply H3.
Qed.

Lemma loadSessions_filter_witness :
  selectedProject (loadSessions three_sessions ["parser"] viewer_chosen).1
  = EmptyString
  /\ sessions (loadSessions three_sessions ["parser"] viewer_chosen).1
     = three_sessions.
Proof.
  apply (loadSessions_filter three_sessions ["parser"] viewer_chosen).
  rewrite list_elem_of_singleton. discriminate.
Defined.

(** ** The spacers *)

Lemma recomputed_first s :
  table_recomputed s -> top_edge s 0 = 0.
Proof.
  intros [Ht _]. unfold top_edge. rewrite Ht, calculateOffsets_table.
  destruct (allMessages s); [done|]. by rewrite offsets_loop_head.
Qed.

Lemma recomputed_next s i :
  table_recomputed s ->
  cache_positive (messageHeights s) ->
  (S i < length (allMessages s))%nat ->
  top_edge s (S i) = bottom_edge s i + GAP.
Proof.
  intros Htable Hpos Hi.
  destruct (lookup_lt_is_Some_2 (allMessages s) i) as [m Hm]; [lia|].
  rewrite (bottom_edge_height s Hpos i m Hm).
  destruct (offsets_loop_succ (messageHeights s) (allMessages s) 0 i m Hm Hi)
    as (a & Ha & Hb).
  unfold top_edge. rewrite (recomputed_table s Htable), Ha, Hb. simpl. lia.
Qed.

Lemma recomputed_total s :
  table_recomputed s ->
  cache_positive (messageHeights s) ->
  allMessages s <> [] ->
  totalHeight s = bottom_edge s (length (allMessages s) - 1).
Proof.
  intros Htable Hpos Hne. pose proof (nonempty_length s Hne) as Hn.
  destruct (lookup_lt_is_Some_2 (allMessages s) (length (allMessages s) - 1))
    as [m Hm]; [lia|].
  rewrite (bottom_edge_height s Hpos _ m Hm).
  pose proof (edges_order s Htable Hpos (length (allMessages s) - 1)%nat
                ltac:(lia)) as [H0 _].
  pose proof (heightOf_positive (messageHeights s) m Hpos) as Hh.
  destruct (offsets_loop_last (messageHeights s) (allMessages s) 0 m)
    as (a & Ha & Hf); [by rewrite last_lookup, Nat.sub_1_r in *|].
  destruct Htable as [Ho ->]. rewrite calculateOffsets_total.
  assert (top_edge s (length (allMessages s) - 1) = a) as Htop.
  { unfold top_edge. rewrite Ho, calculateOffsets_table.
    rewrite last_lookup, offsets_loop_length in Ha.
    rewrite Nat.sub_1_r. by rewrite Ha. }
  rewrite Htop in *. destruct (allMessages s) eqn:E; [done|].
  rewrite <- E in *. lia.
Qed.

(** X28. The spacers of a render reproduce the geometry of the whole
    list: on a recomputed table the top spacer ends where the first
    rendered message starts, and the bottom spacer is what the table
    has below the window, from the top of the first message after it to
    the total height; it is 0 exactly when the window reaches the
    end. *)
Theorem spacers_geometry (s : State) :
  table_recomputed s ->
  cache_positive (messageHeights s) ->
  render_start s < render_end s ->
  let n := Z.of_nat (length (allMessages s)) in
  topSpacer s = top_edge s (Z.to_nat (render_start s))
  /\ (render_end s < n ->
      bottomSpacer s = totalHeight s - top_edge s (Z.to_nat (render_end s))
      /\ 0 < bottomSpacer s)
  /\ (render_end s = n -> bottomSpacer s = 0).
Proof.
  intros Htable Hpos Hlt n.
  destruct (render_bounds s) as [Hstart Hb]. destruct (Hb Hlt) as [Hend Hne].
  fold n in Hend. split; [|split].
  - unfold topSpacer. cbv zeta.
    destruct (Z.ltb_spec 0 (render_start s)).
    + rewrite (top_edge_lookup s Htable (Z.to_nat (render_start s)))
        by (subst n; lia). done.
    + replace (render_start s) with 0 by lia. simpl.
      by rewrite recomputed_first.
  - intros Hin. unfold bottomSpacer. cbv zeta. fold n.
    destruct (Z.ltb_spec (render_end s) n); [|lia].
    destruct (Z.ltb_spec 0 (render_end s)); [|lia]. simpl andb. cbv iota.
    set (e := Z.to_nat (render_end s)).
    assert (Z.to_nat (render_end s - 1) = (e - 1)%nat) as -> by (subst e; lia).
    assert (S (e - 1) = e) as He by (subst e; lia).
    destruct (lookup_lt_is_Some_2 (allMessages s) (e - 1)) as [m Hm];
      [subst e n; lia|].
    rewrite Hm. fold (top_edge s (e - 1)).
    pose proof (recomputed_next s (e - 1) Htable Hpos
                  ltac:(subst e n; lia)) as Hnext.
    rewrite He, (bottom_edge_height s Hpos _ m Hm) in Hnext.
    pose proof (recomputed_total s Htable Hpos Hne) as Htot.
    pose proof (edges_order s Htable Hpos e ltac:(subst e n; lia)) as [_ Hord].
    pose proof (edges_weak_mono s Htable Hpos e
                  (length (allMessages s) - 1)%nat
                  ltac:(subst e n; lia)) as [_ Hmono].
    lia.
  - intros Hall. unfold bottomSpacer. cbv zeta. fold n.
    by destruct (Z.ltb_spec (render_end s) n); [lia|].
Qed.

Lemma spacers_geometry_witness :
  topSpacer hundred_scrolled = 4512
  /\ bottomSpacer hundred_scrolled
     = totalHeight hundred_scrolled - top_edge hundred_scrolled 66.
Proof.
  assert (table_recomputed hundred_scrolled) as Htable.
  { apply table_fresh_recomputed.
    apply (table_fresh_calculateOffsets
             (set_allMessages (replicate 100 (message "m")) initial_state)). }
  assert (cache_positive (messageHeights hundred_scrolled)) as Hpos.
  { intros id h Hid. vm_compute in Hid. discriminate Hid. }
  destruct (spacers_geometry hundred_scrolled Htable Hpos
              ltac:(vm_compute; reflexivity)) as (Htop & Hbottom & _).
  split.
  - rewrite Htop. vm_compute. reflexivity.
  - apply Hbottom. vm_compute. reflexivity.
Defined.

(** ** Toggling the thinking blocks *)

Lemma remeasure_origin els (heights : gmap string Z) id h :
  fold_left remeasure_element els heights !! id = Some h ->
  heights !! id = Some h \/ (id, h) ∈ els /\ 0 < h.
Proof.
  revert heights. induction els as [|[id' height] els IH]; intros heights Hh;
    [by left|].
  simpl in Hh. apply IH in Hh as [Hacc|[Hin Hpos]];
    [|right; split; [by right | done]].
  destruct (Z.ltb_spec 0 height); [|by left].
  destruct (decide (id' = id)) as [->|Hne].
  - rewrite lookup_insert_eq in Hacc. injection Hacc as ->.
    right. split; [by left | done].
  - rewrite lookup_insert_ne in Hacc by done. by left.
Qed.

Lemma remeasure_keeps els (heights : gmap string Z) id h :
  id ∉ els.*1 ->
  heights !! id = Some h ->
  fold_left remeasure_element els heights !! id = Some h.
Proof.
  revert heights. induction els as [|[id' height] els IH]; intros heights Hnot Hh;
    [done|].
  simpl in Hnot. apply not_elem_of_cons in Hnot as [Hne Hnot].
  simpl. apply IH; [done|]. destruct (0 <? height); [|done].
  by rewrite lookup_insert_ne.
Qed.

Lemma remeasure_stores els (heights : gmap string Z) id h :
  NoDup els.*1 -> (id, h) ∈ els -> 0 < h ->
  fold_left remeasure_element els heights !! id = Some h.
Proof.
  revert heights. induction els as [|[id' height] els IH];
    intros heights Hnd Hin Hpos; [by apply elem_of_nil in Hin|].
  simpl in Hnd. apply NoDup_cons in Hnd as [Hfresh Hnd].
  apply elem_of_cons in Hin as [Heq|Hin].
  - injection Heq as <- <-. simpl. apply remeasure_keeps; [done|].
    destruct (Z.ltb_spec 0 h); [|lia]. by rewrite lookup_insert_eq.
  - simpl. by apply IH.
Qed.

(** X29. Toggling the thinking blocks drops every cached height at once
    and leaves the table as it is; its timer then stores the heights of
    the elements on the page that are laid out, and nothing else, and
    recomputes the table for them. *)
Theorem toggleThinking_remeasures (els : list (string * Z)) (dom : Dom)
    (s : State) :
  let s1 := toggleThinking s in
  let s2 := toggleThinking_timeout els dom s1 in
  messageHeights s1 = ∅
  /\ showThinking s1 = negb (showThinking s)
  /\ messageOffsets s1 = messageOffsets s
  /\ allMessages s2 = allMessages s
  /\ table_recomputed s2
  /\ (forall id h, messageHeights s2 !! id = Some h -> (id, h) ∈ els /\ 0 < h)
  /\ (NoDup els.*1 ->
      forall id h, (id, h) ∈ els -> 0 < h -> messageHeights s2 !! id = Some h).
Proof.
  intros s1 s2. split; [done|]. split; [done|]. split; [done|].
  assert (s2 = calculateOffsets
                 (set_messageHeights (fold_left remeasure_element els ∅) s1))
    as ->.
  { subst s2. unfold toggleThinking_timeout.
    apply renderMinimap_recomputed, table_recomputed_calculateOffsets. }
  rewrite messageHeights_calculateOffsets,
          (proj1 (calculateOffsets_fields _)).
  split; [done|]. split; [apply table_recomputed_calculateOffsets|]. simpl.
  split.
  - intros id h Hid. apply remeasure_origin in Hid as [Hempty|H]; [|done].
    by rewrite lookup_empty in Hempty.
  - intros Hnd id h Hin Hpos. by apply remeasure_stores.
Qed.

Lemma toggleThinking_remeasures_witness :
  messageHeights
    (toggleThinking_timeout [("m1", 120); ("m2", 0)] example_dom
       (toggleThinking three_rendered)) !! "m1" = Some 120.
Proof.
  apply (toggleThinking_remeasures [("m1", 120); ("m2", 0)] example_dom
           three_rendered).
  - change (NoDup ["m1"; "m2"]).
    repeat (apply NoDup_cons; split;
            [rewrite ?not_elem_of_cons; repeat split;
             try discriminate; apply not_elem_of_nil|]).
    apply NoDup_nil_2.
  - by left.
  - lia.
Defined.

(** ** Highlights *)

Lemma prefix_append p u : String.prefix p (p +:+ u) = true.
Proof.
  induction p as [|x p IH]; [by destruct u|].
  rewrite append_cons, prefix_cons. by destruct (ascii_dec x x).
Qed.

Lemma replace_from_miss pat rep c rest :
  String.prefix pat (String c rest) = false ->
  replace_from pat rep 0 (String c rest)
  = String c (replace_from pat rep 0 rest).
Proof. intros H. cbn [replace_from]. by rewrite H. Qed.

Lemma replace_from_hit pat' rep u :
  replace_from (String "&" pat') rep 0 (String "&" pat' +:+ u)
  = rep +:+ replace_from (String "&" pat') rep 0 u.
Proof.
  rewrite append_cons at 1. cbn [replace_from].
  rewrite <- append_cons, prefix_append. cbn [String.length].
  rewrite Nat.sub_1_r. cbn [Nat.pred]. f_equal.
  apply (replace_from_skip pat' rep pat' u).
Qed.

Lemma replace_from_free pat' rep t u :
  free_of_markup t ->
  replace_from (String "&" pat') rep 0 (t +:+ u)
  = t +:+ replace_from (String "&" pat') rep 0 u.
Proof.
  induction t as [|c t IH]; [done|]. intros [(Hc & _) Ht].
  rewrite !append_cons, replace_from_other by done. by rewrite IH.
Qed.

Lemma append_empty (t : string) : t +:+ EmptyString = t.
Proof. induction t as [|c t IH]; [done|]. rewrite append_cons. by f_equal. Qed.

(** X30. [safeSnippet] keeps a highlight: a snippet made of text
    without markup characters around one [<mark>]...[</mark>] pair
    comes back unchanged. *)
Theorem safeSnippet_keeps_highlight (before marked after : string) :
  free_of_markup before -> free_of_markup marked -> free_of_markup after ->
  safeSnippet
    (Some (before +:+ "<mark>" +:+ marked +:+ "</mark>" +:+ after))
  = before +:+ "<mark>" +:+ marked +:+ "</mark>" +:+ after.
Proof.
  intros Hb Hm Ha.
  assert (safeSnippet
            (Some (before +:+ "<mark>" +:+ marked +:+ "</mark>" +:+ after))
          = replace_all "&lt;/mark&gt;" "</mark>"
              (replace_all "&lt;mark&gt;" "<mark>"
                 (escapeHtml
                    (Some (before +:+ "<mark>" +:+ marked +:+ "</mark>"
                           +:+ after))))) as ->.
  { unfold safeSnippet. by destruct before. }
  rewrite escapeHtml_chars, !escape_chars_append.
  rewrite (escape_chars_free before), (escape_chars_free marked),
          (escape_chars_free after) by done.
  change (escape_chars "<mark>") with "&lt;mark&gt;".
  change (escape_chars "</mark>") with "&lt;/mark&gt;".
  unfold replace_all.
  (* first pass *)
  rewrite (replace_from_free "lt;mark&gt;") by done.
  rewrite (replace_from_hit "lt;mark&gt;").
  rewrite (replace_from_free "lt;mark&gt;") by done.
  assert (replace_from "&lt;mark&gt;" "<mark>" 0 ("&lt;/mark&gt;" +:+ after)
          = "&lt;/mark&gt;" +:+ after) as ->.
  { change ("&lt;/mark&gt;" +:+ after)
      with (String "&" (String "l" (String "t" (String ";" (String "/"
             (String "m" (String "a" (String "r" (String "k" (String "&"
             (String "g" (String "t" (String ";" after))))))))))))).
    rewrite replace_from_miss by (vm_compute; reflexivity).
    rewrite !(replace_from_other "lt;mark&gt;") by discriminate.
    rewrite replace_from_miss by (vm_compute; reflexivity).
    rewrite !(replace_from_other "lt;mark&gt;") by discriminate.
    rewrite <- (append_empty after) at 1.
    rewrite (replace_from_free "lt;mark&gt;") by done.
    by rewrite append_empty. }
  (* second pass *)
  rewrite (replace_from_free "lt;/mark&gt;") by done.
  change ("<mark>" +:+ marked +:+ "&lt;/mark&gt;" +:+ after)
    with (String "<" (String "m" (String "a" (String "r" (String "k"
           (String ">" (marked +:+ "&lt;/mark&gt;" +:+ after))))))).
  rewrite !(replace_from_other "lt;/mark&gt;") by discriminate.
  rewrite (replace_from_free "lt;/mark&gt;") by done.
  rewrite (replace_from_hit "lt;/mark&gt;").
  rewrite <- (append_empty after) at 1.
  rewrite (replace_from_free "lt;/mark&gt;") by done.
  by rewrite append_empty.
Qed.

Lemma safeSnippet_keeps_highlight_witness :
  safeSnippet (Some ("fix the " +:+ "<mark>" +:+ "scroll" +:+ "</mark>"
                     +:+ " bug"))
  = "fix the " +:+ "<mark>" +:+ "scroll" +:+ "</mark>" +:+ " bug".
Proof.
  apply (safeSnippet_keeps_highlight "fix the " "scroll" " bug");
    vm_compute; repeat split; discriminate.
Defined.

Lemma handleScroll_frame_window_witness :
  handleScroll_frame example_dom three_rendered = three_rendered
  /\ visibleRange (handleScroll_frame example_dom three_estimated)
     = {| start := 0; end_ := 3 |}.
Proof.
  split.
  - apply (proj1 (proj2 (handleScroll_frame_window example_dom three_rendered))).
    vm_compute. reflexivity.
  - exact (proj1 (handleScroll_frame_window example_dom three_estimated)).
Defined.
